(** * Batched sampler operations: a shallow embedding of [src/sampler.ts]

    The TypeScript module wraps the ERC20 bridge sampler contract.  It
    builds [ContractOperation]s (encode a call, decode its result, decode
    its revert), packs sub-operations into one [batchCall] operation, and
    executes a list of operations with one remote call.

    Effects of the source that the claims talk about are kept explicit:
    - a JavaScript [throw] is the [Throw] outcome;
    - [logger.warn] and the remote [callStatic.batchCall] leave events in a
      trace that is carried next to the outcome. *)

From Stdlib Require Import String Ascii HexString List ZArith Bool Arith Lia.
Import ListNotations.
Open Scope string_scope.
Open Scope list_scope.

(** ** Outcomes and traces *)

(** A JavaScript exception.  [Error] is [new Error(message)]; [TypeError]
    is what reading a property of [undefined] raises. *)
Inductive JsError : Type :=
| Error (message : string)
| TypeError (message : string).

Inductive Outcome (A : Type) : Type :=
| Ok (a : A)
| Throw (e : JsError).
Arguments Ok {A} a.
Arguments Throw {A} e.

(** A computation that returns or throws, and leaves a trace of events of
    type [E].  The events emitted before a throw stay in the trace. *)
Definition Eff (E A : Type) : Type := (Outcome A * list E)%type.

Definition ret {E A} (a : A) : Eff E A := (Ok a, []).
Definition throw {E A} (e : JsError) : Eff E A := (Throw e, []).
Definition emit {E} (ev : E) : Eff E unit := (Ok tt, [ev]).
Definition pure {E A} (o : Outcome A) : Eff E A := (o, []).

Definition bind {E A B} (m : Eff E A) (k : A -> Eff E B) : Eff E B :=
  match m with
  | (Ok a, tr) => let (r, tr') := k a in (r, tr ++ tr')
  | (Throw e, tr) => (Throw e, tr)
  end.

Notation "x <- m ;; k" := (bind m (fun x => k))
  (at level 61, m at next level, right associativity).

(** Re-tag the events of a computation. *)
Definition lift {E E' A} (f : E -> E') (m : Eff E A) : Eff E' A :=
  (fst m, map f (snd m)).

Definition outcome {E A} (m : Eff E A) : Outcome A := fst m.
Definition trace {E A} (m : Eff E A) : list E := snd m.

(** [_.map(collection, (value, index) => ...)] of lodash on an array: the
    callback runs on the elements from left to right, and an exception in
    one call abandons the rest. *)
Fixpoint lodash_map_from {E A B} (f : A -> nat -> Eff E B) (l : list A)
    (i : nat) : Eff E (list B) :=
  match l with
  | [] => ret []
  | x :: xs =>
      y <- f x i ;;
      ys <- lodash_map_from f xs (S i) ;;
      ret (y :: ys)
  end.

Definition lodash_map {E A B} (f : A -> nat -> Eff E B) (l : list A)
    : Eff E (list B) :=
  lodash_map_from f l 0.

(** ** Data model *)

(** Hex strings: call data and return data. *)
Definition Payload : Type := string.

(** What a decoder is handed at run time.  The TypeScript type is
    [string]; an array read out of range hands over [undefined], which is
    [None] here. *)
Definition CallResult : Type := option Payload.

(** [BigNumber] of ethers: an unbounded integer. *)
Definition BigNumber : Type := Z.

Definition ChainId : Type := N.

(** Modelled from the spec: the [Protocol] enum of [./types] is not under
    src/.  The source names two members, [UniswapV2] and [SushiSwap];
    [OtherProtocol] stands for every other member of the enum. *)
Inductive Protocol : Type :=
| UniswapV2
| SushiSwap
| OtherProtocol (name : string).

(** Modelled from the spec: the run-time value of an enum member, as the
    template literal [`${protocol}`] prints it. *)
Definition Protocol_toString (p : Protocol) : string :=
  match p with
  | UniswapV2 => "UniswapV2"
  | SushiSwap => "SushiSwap"
  | OtherProtocol name => name
  end.

Record SamplerRoute : Type := {
  route_protocol : Protocol;
  route_path : list string
}.

(** [input] is [amounts[j]], an array read, so it is [None] when the
    sample has no amount at its index. *)
Record DexSample : Type := {
  sample_protocol : Protocol;
  sample_input : option BigNumber;
  sample_output : BigNumber
}.

(** ** The ABI coder (ethers' [Interface])

    The coder is a library outside the repository.  It is taken as a
    record of the calls the source makes, each typed the way the source's
    casts type its result.  Every call may throw. *)

#[warnings="-register-all"]
Inductive AbiValue : Type :=
| AbiBigNumber (n : BigNumber)
| AbiString (s : string)
| AbiArray (l : list AbiValue).

Definition FunctionFragment : Type := string.

Record Interface : Type := {
  getFunction : string -> Outcome FunctionFragment;
  encodeFunctionData :
    FunctionFragment -> option (list AbiValue) -> Outcome Payload;
  (** [decodeFunctionResult(fragment, data)[0] as unknown as BigNumber[]] *)
  decodeFunctionResult_0 :
    FunctionFragment -> CallResult -> Outcome (list BigNumber);
  (** [decodeFunctionResult('batchCall', data).callResults] *)
  decodeFunctionResult_callResults :
    FunctionFragment -> CallResult -> Outcome (list Payload);
  (** [decodeErrorResult(name, data).toString()] *)
  decodeErrorResult : string -> CallResult -> Outcome string
}.

(** ** Operations *)

(** Events an operation can leave: the messages of [logger.warn]. *)
Definition Logged : Type -> Type := Eff string.

Definition logger_warn (msg : string) : Logged unit := emit msg.

(** [interface ContractOperation<TResult>] *)
Record ContractOperation (TResult : Type) : Type := {
  encodeCall : Logged Payload;
  handleCallResults : CallResult -> Logged TResult;
  handleRevert : CallResult -> Logged TResult
}.
Arguments encodeCall {TResult} _.
Arguments handleCallResults {TResult} _ _.
Arguments handleRevert {TResult} _ _.

(** [interface SourceContractOperation extends ContractOperation<BigNumber[]>] *)
Record SourceContractOperation : Type := {
  protocol : Protocol;
  operation :> ContractOperation (list BigNumber)
}.

(** [type SamplerContractOption<TFunctionParams>] *)
Record SamplerContractOption : Type := {
  option_protocol : Protocol;
  option_contractInterface : Interface;
  option_functionName : string;
  option_functionParams : option (list AbiValue)
}.

(** [class SamplerContractOperation]: the fields, then the constructor and
    the three methods. *)
Record SamplerContractOperation : Type := {
  this_functionName : string;
  this_functionParams : option (list AbiValue);
  this_contractInterface : Interface;
  this_protocol : Protocol
}.

Definition SamplerContractOperation_new (options : SamplerContractOption)
    : SamplerContractOperation :=
  {| this_functionName := option_functionName options;
     this_functionParams := option_functionParams options;
     this_contractInterface := option_contractInterface options;
     this_protocol := option_protocol options |}.

Definition SamplerContractOperation_encodeCall
    (this : SamplerContractOperation) : Logged Payload :=
  fragment <- pure (getFunction (this_contractInterface this)
                      (this_functionName this)) ;;
  calldata <- pure (encodeFunctionData (this_contractInterface this)
                      fragment (this_functionParams this)) ;;
  ret calldata.

Definition SamplerContractOperation_handleCallResults
    (this : SamplerContractOperation) (callResults : CallResult)
    : Logged (list BigNumber) :=
  fragment <- pure (getFunction (this_contractInterface this)
                      (this_functionName this)) ;;
  pure (decodeFunctionResult_0 (this_contractInterface this)
          fragment callResults).

Definition SamplerContractOperation_handleRevert
    (this : SamplerContractOperation) (callResults : CallResult)
    : Logged (list BigNumber) :=
  msg <- pure (decodeErrorResult (this_contractInterface this)
                 (this_functionName this) callResults) ;;
  _ <- logger_warn ("Sampler Operation: "
                    ++ Protocol_toString (this_protocol this) ++ "."
                    ++ this_functionName this ++ " reverted " ++ msg)%string ;;
  ret [].

(** The object seen through [SourceContractOperation]. *)
Definition SamplerContractOperation_object (this : SamplerContractOperation)
    : SourceContractOperation :=
  {| protocol := this_protocol this;
     operation :=
       {| encodeCall := SamplerContractOperation_encodeCall this;
          handleCallResults := SamplerContractOperation_handleCallResults this;
          handleRevert := SamplerContractOperation_handleRevert this |} |}.

(** The same array walk for a callback without effects. *)
Fixpoint lodash_map_pure_from {A B} (f : A -> nat -> B) (l : list A)
    (i : nat) : list B :=
  match l with
  | [] => []
  | x :: xs => f x i :: lodash_map_pure_from f xs (S i)
  end.

Definition lodash_map_pure {A B} (f : A -> nat -> B) (l : list A) : list B :=
  lodash_map_pure_from f l 0.

(** [_.map(samples[i], ...)]: lodash maps [undefined] to the empty array. *)
Definition lodash_collection {A} (c : option (list A)) : list A :=
  match c with
  | Some l => l
  | None => []
  end.

(** Events of the sampler object: warnings of its operations, and the
    remote calls it makes. *)
Inductive Event : Type :=
| Warn (msg : string)
| RemoteBatchCall (callDatas : list Payload) (blockTag : option N).

Definition is_remote (ev : Event) : bool :=
  match ev with
  | RemoteBatchCall _ _ => true
  | Warn _ => false
  end.

(** Number of remote invocations in a trace. *)
Definition remote_calls (tr : list Event) : nat :=
  length (filter is_remote tr).

(** [class SamplerOperation] *)
Record SamplerOperation : Type := {
  chainId : ChainId;
  contractInterface : Interface
}.

Section SamplerCode.

(** [Erc20BridgeSampler__factory.createInterface()] of [./types/other],
    a generated file that is not under src/: the ABI coder of the sampler
    contract. *)
Variable Erc20BridgeSampler__factory_createInterface : Interface.

(** [protocol: Protocol = Protocol.UniswapV2]: an omitted argument is
    [None] and takes the default. *)
Definition SamplerOperation_getUniswapV2SellQuotes (this : SamplerOperation)
    (tokenAddressPath : list string) (takerFillAmounts : list BigNumber)
    (protocol_arg : option Protocol) : SourceContractOperation :=
  let protocol := match protocol_arg with
                  | Some p => p
                  | None => UniswapV2
                  end in
  SamplerContractOperation_object (SamplerContractOperation_new
    {| option_protocol := protocol;
       option_contractInterface := Erc20BridgeSampler__factory_createInterface;
       option_functionName := "sampleSellsFromUniswapV2";
       option_functionParams :=
         Some [AbiArray (map AbiString tokenAddressPath);
               AbiArray (map AbiBigNumber takerFillAmounts)] |}).

Definition SamplerOperation_getUniswapV2BuyQuotes (this : SamplerOperation)
    (tokenAddressPath : list string) (makerFillAmounts : list BigNumber)
    (protocol_arg : option Protocol) : SourceContractOperation :=
  let protocol := match protocol_arg with
                  | Some p => p
                  | None => UniswapV2
                  end in
  SamplerContractOperation_object (SamplerContractOperation_new
    {| option_protocol := protocol;
       option_contractInterface := Erc20BridgeSampler__factory_createInterface;
       option_functionName := "sampleBuysFromUniswapV2";
       option_functionParams :=
         Some [AbiArray (map AbiString tokenAddressPath);
               AbiArray (map AbiBigNumber makerFillAmounts)] |}).

Definition SamplerOperation_getSellQuoteOperations (this : SamplerOperation)
    (amounts : list BigNumber) (routes : list SamplerRoute)
    : Eff Event (list SourceContractOperation) :=
  allOps <- lodash_map (fun route _ =>
    let protocol := route_protocol route in
    match protocol with
    | UniswapV2 | SushiSwap =>
        let path := route_path route in
        ret (SamplerOperation_getUniswapV2SellQuotes this path amounts
               (Some protocol))
    | _ =>
        throw (Error ("Unsupported sell sample protocol: "
                      ++ Protocol_toString protocol)%string)
    end) routes ;;
  ret allOps.

Definition SamplerOperation_getBuyQuoteOperations (this : SamplerOperation)
    (amounts : list BigNumber) (routes : list SamplerRoute)
    : Eff Event (list SourceContractOperation) :=
  allOps <- lodash_map (fun route _ =>
    let protocol := route_protocol route in
    match protocol with
    | UniswapV2 | SushiSwap =>
        let path := route_path route in
        ret (SamplerOperation_getUniswapV2BuyQuotes this path amounts
               (Some protocol))
    | _ =>
        throw (Error ("Unsupported buy sample protocol: "
                      ++ Protocol_toString protocol)%string)
    end) routes ;;
  ret allOps.

(** [createBatch]: wraps subOps into a single batch operation. *)
Definition SamplerOperation_createBatch {T TResult : Type}
    (this : SamplerOperation)
    (subOps : list (ContractOperation TResult))
    (resultHandler : list TResult -> Logged T)
    (revertHandler : CallResult -> Logged T) : ContractOperation T :=
  {| encodeCall :=
       subCalls <- lodash_map (fun subOp _ => encodeCall subOp) subOps ;;
       pure (encodeFunctionData (contractInterface this) "batchCall"
               (Some [AbiArray (map AbiString subCalls)]));
     handleCallResults := fun callResults =>
       rawSubcallResults <-
         pure (decodeFunctionResult_callResults (contractInterface this)
                 "batchCall" callResults) ;;
       results <- lodash_map (fun op i =>
         handleCallResults op (nth_error rawSubcallResults i)) subOps ;;
       resultHandler results;
     handleRevert := revertHandler |}.

(** The result handler that [getSellQuotes] and [getBuyQuotes] both pass
    to [createBatch]. *)
Definition quotes_resultHandler (amounts : list BigNumber)
    (routes : list SamplerRoute) (samples : list (list BigNumber))
    : list (list DexSample) :=
  lodash_map_pure (fun route i =>
    lodash_map_pure (fun output j =>
      {| sample_protocol := route_protocol route;
         sample_input := nth_error amounts j;
         sample_output := output |})
      (lodash_collection (nth_error samples i))) routes.

Definition SamplerOperation_getSellQuotes (this : SamplerOperation)
    (amounts : list BigNumber) (routes : list SamplerRoute)
    : Eff Event (ContractOperation (list (list DexSample))) :=
  subOps <- SamplerOperation_getSellQuoteOperations this amounts routes ;;
  ret (SamplerOperation_createBatch this (map operation subOps)
         (fun samples => ret (quotes_resultHandler amounts routes samples))
         (fun _ => ret [])).

Definition SamplerOperation_getBuyQuotes (this : SamplerOperation)
    (amounts : list BigNumber) (routes : list SamplerRoute)
    : Eff Event (ContractOperation (list (list DexSample))) :=
  subOps <- SamplerOperation_getBuyQuoteOperations this amounts routes ;;
  ret (SamplerOperation_createBatch this (map operation subOps)
         (fun samples => ret (quotes_resultHandler amounts routes samples))
         (fun _ => ret [])).

End SamplerCode.

Definition NULL_BYTES : Payload := "0x0".

(** [class Sampler extends SamplerOperation].  [samplerContract] is the
    connected contract; the one call made on it is
    [callStatic.batchCall(callDatas, { blockTag })]. *)
Record Sampler : Type := {
  super : SamplerOperation;
  samplerContract_callStatic_batchCall :
    list Payload -> option N -> Outcome (list Payload);
  samplerOverrides_blockNumber : option N
}.

(** The remote invocation: the call is recorded, also when it fails. *)
Definition callStatic_batchCall (this : Sampler) (callDatas : list Payload)
    (blockTag : option N) : Eff Event (list Payload) :=
  _ <- emit (RemoteBatchCall callDatas blockTag) ;;
  pure (samplerContract_callStatic_batchCall this callDatas blockTag).

(** [ops[i].handleCallResults]: reading the method of [undefined] throws. *)
Definition array_get {A} (ops : list A) (i : nat) : Eff Event A :=
  match nth_error ops i with
  | Some o => ret o
  | None =>
      throw (TypeError "Cannot read properties of undefined")
  end.

(** The second [_.map] of [executeBatchAsync]; its callback advances the
    captured counter [rawCallResultsIdx]. *)
Fixpoint parsed_results {T} (ops : list (ContractOperation T))
    (rawCallResults : list Payload) (callDatas : list Payload)
    (i rawCallResultsIdx : nat) : Eff Event (list T) :=
  match callDatas with
  | [] => ret []
  | callData :: rest =>
      let '(result, idx) :=
        if negb (callData =? NULL_BYTES)%string
        then (nth_error rawCallResults rawCallResultsIdx,
              S rawCallResultsIdx)
        else (Some NULL_BYTES, rawCallResultsIdx) in
      op <- array_get ops i ;;
      r <- lift Warn (handleCallResults op result) ;;
      rs <- parsed_results ops rawCallResults rest (S i) idx ;;
      ret (r :: rs)
  end.

Definition Sampler_executeBatchAsync {T} (this : Sampler)
    (ops : list (ContractOperation T)) : Eff Event (list T) :=
  callDatas <- lodash_map (fun o _ => lift Warn (encodeCall o)) ops ;;
  let blockNumber := samplerOverrides_blockNumber this in
  if forallb (fun cd => (cd =? NULL_BYTES)%string) callDatas then
    lodash_map (fun _callData i =>
      op <- array_get ops i ;;
      lift Warn (handleCallResults op (Some NULL_BYTES))) callDatas
  else
    rawCallResults <-
      callStatic_batchCall this
        (filter (fun cd => negb (cd =? NULL_BYTES)%string) callDatas)
        blockNumber ;;
    parsed_results ops rawCallResults callDatas 0 0.

Definition Sampler_executeAsync {T} (this : Sampler)
    (ops : list (ContractOperation T)) : Eff Event (list T) :=
  Sampler_executeBatchAsync this ops.

(** ** A small coder and node, for running the code on concrete inputs

    [Demo.abi] is a toy ABI coder with the shape of the real one: call data
    is the function name and its rendered arguments, return data of a
    sampler function is ["="] and the quantities, return data of
    [batchCall] is ["#"] and the slots, revert data is ["!"] and the
    reason.  [Demo.node] is a node whose sampler contract answers sell
    quotes, reverts buy quotes, and runs a [batchCall] on its sub-calls. *)
Module Demo.

Fixpoint render (v : AbiValue) : string :=
  match v with
  | AbiBigNumber n => HexString.of_Z n
  | AbiString s => s
  | AbiArray l =>
      let fix render_all (l : list AbiValue) : string :=
        match l with
        | [] => ""
        | x :: xs => (render x ++ "," ++ render_all xs)%string
        end in
      ("[" ++ render_all l ++ "]")%string
  end.

Definition render_params (vs : list AbiValue) : string :=
  String.concat "" (map (fun v => (render v ++ ",")%string) vs).

Definition known_functions : list string :=
  ["sampleSellsFromUniswapV2"; "sampleBuysFromUniswapV2"; "batchCall"].

Definition snoc (s : string) (c : ascii) : string :=
  (s ++ String c EmptyString)%string.

(** The pieces of [s], each closed by [sep]; an unclosed rest is dropped. *)
Fixpoint pieces (sep : ascii) (s cur : string) : list string :=
  match s with
  | EmptyString => []
  | String c rest =>
      if Ascii.eqb c sep
      then cur :: pieces sep rest EmptyString
      else pieces sep rest (snoc cur c)
  end.

(** The elements of a rendered array, read up to its closing bracket;
    commas inside nested brackets do not split. *)
Fixpoint elements (s : string) (depth : nat) (cur : string) : list string :=
  match s with
  | EmptyString => []
  | String c rest =>
      if (Ascii.eqb c "[" || Ascii.eqb c "(")%char%bool
      then elements rest (S depth) (snoc cur c)
      else if (Ascii.eqb c "]" || Ascii.eqb c ")")%char%bool
      then match depth with
           | 0 => []
           | S d => elements rest d (snoc cur c)
           end
      else if (Ascii.eqb c "," && Nat.eqb depth 0)%char%bool
      then cur :: elements rest 0 EmptyString
      else elements rest depth (snoc cur c)
  end.

Definition after (pre s : string) : option string :=
  if String.prefix pre s
  then Some (String.substring (String.length pre)
               (String.length s - String.length pre) s)
  else None.

Definition abi : Interface :=
  {| getFunction := fun name =>
       if existsb (String.eqb name) known_functions
       then Ok name
       else Throw (Error "no matching function");
     encodeFunctionData := fun fragment values =>
       Ok (fragment ++ "("
           ++ render_params (match values with Some vs => vs | None => [] end)
           ++ ")")%string;
     decodeFunctionResult_0 := fun _ data =>
       match data with
       | Some s =>
           match after "=" s with
           | Some body => Ok (map HexString.to_Z (pieces "," body EmptyString))
           | None => Throw (Error "call revert exception")
           end
       | None => Throw (Error "invalid arrayify value")
       end;
     decodeFunctionResult_callResults := fun _ data =>
       match data with
       | Some s =>
           match after "#" s with
           | Some body => Ok (pieces ";" body EmptyString)
           | None => Throw (Error "call revert exception")
           end
       | None => Throw (Error "invalid arrayify value")
       end;
     decodeErrorResult := fun _ data =>
       match data with
       | Some s =>
           match after "!" s with
           | Some reason => Ok reason
           | None => Throw (Error "data signature does not match error")
           end
       | None => Throw (Error "invalid arrayify value")
       end |}.

(** One call on the demo contract that is not a batch. *)
Definition contract_call (callData : Payload) : Payload :=
  if String.prefix "sampleSellsFromUniswapV2(" callData then "=0xa,0x13,"
  else if String.prefix "sampleBuysFromUniswapV2(" callData
  then "!INSUFFICIENT_LIQUIDITY"
  else "!unknown selector".

Definition contract (callData : Payload) : Payload :=
  match after "batchCall([" callData with
  | Some body =>
      ("#" ++ String.concat ""
                (map (fun sub => (contract_call sub ++ ";")%string)
                   (elements body 0 EmptyString)))%string
  | None => contract_call callData
  end.

Definition node (callDatas : list Payload) (blockTag : option N)
    : Outcome (list Payload) :=
  Ok (map contract callDatas).

Definition samplerOperation : SamplerOperation :=
  {| chainId := 1%N; contractInterface := abi |}.

Definition sampler : Sampler :=
  {| super := samplerOperation;
     samplerContract_callStatic_batchCall := node;
     samplerOverrides_blockNumber := None |}.

Definition WETH : string := "0xC02a".
Definition DAI : string := "0x6B17".

Definition routes : list SamplerRoute :=
  [ {| route_protocol := UniswapV2; route_path := [WETH; DAI] |};
    {| route_protocol := SushiSwap; route_path := [WETH; DAI] |} ].

Definition amounts : list BigNumber := [100%Z; 200%Z].

(** An operation that needs no remote call: its call data is the
    sentinel, and its result is the bytes it is handed. *)
Definition localEcho : ContractOperation CallResult :=
  {| encodeCall := ret "0x0";
     handleCallResults := fun callResults => ret callResults;
     handleRevert := fun callResults => ret callResults |}.

(** An operation that needs no remote call and decodes to no quantities. *)
Definition localEmpty : ContractOperation (list BigNumber) :=
  {| encodeCall := ret "0x0";
     handleCallResults := fun _ => ret [];
     handleRevert := fun _ => ret [] |}.

Definition sellOp : SourceContractOperation :=
  SamplerOperation_getUniswapV2SellQuotes abi samplerOperation
    [WETH; DAI] amounts None.

Definition buyOp : SourceContractOperation :=
  SamplerOperation_getUniswapV2BuyQuotes abi samplerOperation
    [WETH; DAI] amounts (Some SushiSwap).

Definition sellCall : Payload :=
  "sampleSellsFromUniswapV2([0xC02a,0x6B17,],[0x64,0xc8,],)".

(** The sub-operations [getSellQuotes] builds for [routes]. *)
Definition quoteOps : list (ContractOperation (list BigNumber)) :=
  map (fun r => operation
         (SamplerOperation_getUniswapV2SellQuotes abi samplerOperation
            (route_path r) amounts (Some (route_protocol r))))
    routes.

Definition quotesBatch : ContractOperation (list (list DexSample)) :=
  SamplerOperation_createBatch samplerOperation quoteOps
    (fun samples => ret (quotes_resultHandler amounts routes samples))
    (fun _ => ret []).

Definition sellBuyBatch : ContractOperation (list (list BigNumber)) :=
  SamplerOperation_createBatch samplerOperation
    [operation sellOp; operation buyOp] (fun results => ret results)
    (fun _ => ret []).

Definition echoBatch : ContractOperation (list CallResult) :=
  SamplerOperation_createBatch samplerOperation [localEcho]
    (fun results => ret results) (fun _ => ret []).

Definition mixedRoutes : list SamplerRoute :=
  [ {| route_protocol := UniswapV2; route_path := [WETH; DAI] |};
    {| route_protocol := OtherProtocol "Curve"; route_path := [WETH; DAI] |};
    {| route_protocol := OtherProtocol "Balancer";
       route_path := [WETH; DAI] |} ].

End Demo.


(** ** Words of the specification *)

(** A payload that is sent: any payload but the sentinel. *)
Definition is_call (callData : Payload) : bool :=
  negb (callData =? NULL_BYTES)%string.

(** The raw bytes the operation at index [i] decodes, in the words of the
    specification: the sentinel when its payload was the sentinel, else
    the next remote result not yet consumed by the operations before it. *)
Definition slot_of (callDatas rawCallResults : list Payload) (i : nat)
    : CallResult :=
  match nth_error callDatas i with
  | Some callData =>
      if is_call callData
      then nth_error rawCallResults
             (length (filter is_call (firstn i callDatas)))
      else Some NULL_BYTES
  | None => None
  end.

(** The classifications the two [switch] statements accept. *)
Definition recognized (p : Protocol) : bool :=
  match p with
  | UniswapV2 | SushiSwap => true
  | OtherProtocol _ => false
  end.

(** The warnings of a trace, in order. *)
Definition warnings (tr : list Event) : list string :=
  flat_map (fun ev => match ev with
                      | Warn msg => [msg]
                      | RemoteBatchCall _ _ => []
                      end) tr.

(** [results] are the values of [f] on the elements of [l], index by
    index. *)
Definition decoded_by {A B} (f : A -> nat -> Logged B) (l : list A)
    (results : list B) : Prop :=
  length results = length l /\
  forall i x, nth_error l i = Some x ->
    exists r, nth_error results i = Some r /\ outcome (f x i) = Ok r.

(** The same operation with another failure decoder. *)
Definition with_handleRevert {T} (h : CallResult -> Logged T)
    (op : ContractOperation T) : ContractOperation T :=
  {| encodeCall := encodeCall op;
     handleCallResults := handleCallResults op;
     handleRevert := h |}.

(** The callback of either expansion, read off the [switch]: [make] is
    the factory method and [side] the word in the error message. *)
Definition expand_route (amounts : list BigNumber)
    (make : list string -> list BigNumber -> option Protocol ->
            SourceContractOperation)
    (side : string) (route : SamplerRoute) (_ : nat)
    : Eff Event SourceContractOperation :=
  match route_protocol route with
  | OtherProtocol name =>
      throw (Error ("Unsupported " ++ side ++ " sample protocol: "
                    ++ Protocol_toString (OtherProtocol name))%string)
  | p => ret (make (route_path route) amounts (Some p))
  end.

(** ** The rest of the sampler: construction *)

(** An entry of [contractAddressesByChain]: [quoter] is [None] when the
    property is absent. *)
Record ContractAddresses : Type := {
  quoter : option string
}.

(** [!samplerAddress]: [undefined] and the empty string are falsy. *)
Definition falsy (address : option string) : bool :=
  match address with
  | None => true
  | Some a => (a =? "")%string
  end.

Section SamplerConstruction.

(** [providers.BaseProvider] of ethers. *)
Variable Provider : Type.

(** The parts of [./addresses], [./types] and [./types/other] the
    constructor uses, none of them under src/: the address table, the
    printing of a chain id in a template literal, and the generated
    factory of the sampler contract ([connect] gives the contract, of
    which the code calls [callStatic.batchCall]). *)
Variable contractAddressesByChain : ChainId -> option ContractAddresses.
Variable ChainId_toString : ChainId -> string.
Variable Erc20BridgeSampler__factory_createInterface : Interface.
Variable Erc20BridgeSampler__factory_connect :
  string -> Provider -> list Payload -> option N -> Outcome (list Payload).

(** [constructor(chainId, provider, samplerOverrides)] of [Sampler].
    [contractAddressesByChain[chainId]!.quoter] reads a property of the
    table entry; the [!] is erased at run time, so a chain without entry
    raises a [TypeError]. *)
Definition Sampler_new (chainId : ChainId) (provider : Provider)
    (samplerOverrides : option N) : Eff Event Sampler :=
  let super :=
    {| chainId := chainId;
       contractInterface := Erc20BridgeSampler__factory_createInterface |} in
  samplerAddress <-
    match contractAddressesByChain chainId with
    | Some addresses => ret (quoter addresses)
    | None => throw (TypeError "Cannot read properties of undefined")
    end ;;
  if falsy samplerAddress then
    throw (Error ("No address for sampler contract on chain id: "
                  ++ ChainId_toString chainId)%string)
  else
    ret {| super := super;
           samplerContract_callStatic_batchCall :=
             Erc20BridgeSampler__factory_connect
               (match samplerAddress with Some a => a | None => "" end)
               provider;
           samplerOverrides_blockNumber := samplerOverrides |}.

End SamplerConstruction.

(** ** [contracts/sampler/SamplerUtils.sol] *)
Module SamplerUtils.

(** The result of an internal Solidity call: it returns, or it reverts
    with a reason. *)
Inductive Result (A : Type) : Type :=
| Return (a : A)
| Revert (reason : string).
Arguments Return {A} a.
Arguments Revert {A} reason.

(** [uint256] and [address], as unsigned numbers. *)
Definition uint256 : Type := N.
Definition address : Type := N.

(** [arr[i] = v] on a memory array; the index is in range where the
    contract uses it. *)
Fixpoint store (arr : list uint256) (i : nat) (v : uint256) : list uint256 :=
  match arr, i with
  | [], _ => []
  | _ :: rest, 0 => v :: rest
  | x :: rest, S j => x :: store rest j v
  end.

Definition _toSingleValueArray (v : uint256) : list uint256 :=
  let arr := repeat 0%N 1 in
  store arr 0 v.

Definition _assertValidPair (makerToken takerToken : address) : Result unit :=
  if negb (N.eqb makerToken takerToken)
  then Return tt
  else Revert "ERC20BridgeSampler/INVALID_TOKEN_PAIR".

End SamplerUtils.

(** ** Words for the further properties *)

(** The four ways a run of [executeBatchAsync] can go: an encoding
    throws; every payload is the sentinel; the remote call throws; the
    remote call returns. *)
Inductive Run {T} (this : Sampler) (ops : list (ContractOperation T))
    : Eff Event (list T) -> Prop :=
| Run_encode_throw e log :
    lodash_map (fun o _ => encodeCall o) ops = (Throw e, log) ->
    Run this ops (Throw e, map Warn log)
| Run_local callDatas log :
    lodash_map (fun o _ => encodeCall o) ops = (Ok callDatas, log) ->
    existsb is_call callDatas = false ->
    Run this ops
      (outcome (lodash_map (fun op _ =>
         handleCallResults op (Some NULL_BYTES)) ops),
       map Warn log
       ++ map Warn (trace (lodash_map (fun op _ =>
            handleCallResults op (Some NULL_BYTES)) ops)))
| Run_remote_throw callDatas log e :
    lodash_map (fun o _ => encodeCall o) ops = (Ok callDatas, log) ->
    existsb is_call callDatas = true ->
    Run this ops
      (Throw e,
       map Warn log
       ++ [RemoteBatchCall (filter is_call callDatas)
             (samplerOverrides_blockNumber this)])
| Run_remote callDatas log rawCallResults :
    lodash_map (fun o _ => encodeCall o) ops = (Ok callDatas, log) ->
    existsb is_call callDatas = true ->
    Run this ops
      (outcome (lodash_map (fun op i =>
         handleCallResults op (slot_of callDatas rawCallResults i)) ops),
       map Warn log
       ++ [RemoteBatchCall (filter is_call callDatas)
             (samplerOverrides_blockNumber this)]
       ++ map Warn (trace (lodash_map (fun op i =>
            handleCallResults op (slot_of callDatas rawCallResults i))
            ops))).

(** [l] with [v] put in at index [n]. *)
Definition insert_at {A} (n : nat) (v : A) (l : list A) : list A :=
  firstn n l ++ v :: skipn n l.

Definition Outcome_map {A B} (f : A -> B) (o : Outcome A) : Outcome B :=
  match o with
  | Ok a => Ok (f a)
  | Throw e => Throw e
  end.

(** ** More concrete inputs, on the demo coder *)
Module Cases.

(** A sampler operation for a function the coder does not know. *)
Definition unknownOp : SourceContractOperation :=
  SamplerContractOperation_object (SamplerContractOperation_new
    {| option_protocol := UniswapV2;
       option_contractInterface := Demo.abi;
       option_functionName := "sampleSellsFromKyber";
       option_functionParams := Some [] |}).

(** An operation that is sent, and whose result is the bytes it is
    handed. *)
Definition pingOp : ContractOperation CallResult :=
  {| encodeCall := ret "0x01";
     handleCallResults := fun callResults => ret callResults;
     handleRevert := fun callResults => ret callResults |}.

(** A sampler whose node cannot be reached. *)
Definition offlineSampler : Sampler :=
  {| super := Demo.samplerOperation;
     samplerContract_callStatic_batchCall := fun _ _ =>
       Throw (Error "could not detect network");
     samplerOverrides_blockNumber := Some 17000000%N |}.

(** A sampler whose node returns one result too many. *)
Definition chattySampler : Sampler :=
  {| super := Demo.samplerOperation;
     samplerContract_callStatic_batchCall := fun callDatas _ =>
       Ok (map Demo.contract callDatas ++ ["=0x1,"]);
     samplerOverrides_blockNumber := None |}.

(** A sampler whose node returns no result at all. *)
Definition muteSampler : Sampler :=
  {| super := Demo.samplerOperation;
     samplerContract_callStatic_batchCall := fun _ _ => Ok [];
     samplerOverrides_blockNumber := None |}.

(** The routes of the demo with their classifications exchanged. *)
Definition swappedRoutes : list SamplerRoute :=
  [ {| route_protocol := SushiSwap;
       route_path := [Demo.WETH; Demo.DAI] |};
    {| route_protocol := UniswapV2;
       route_path := [Demo.WETH; Demo.DAI] |} ].

(** The call data of [Demo.quotesBatch]. *)
Definition quotesCall : Payload :=
  ("batchCall([" ++ Demo.sellCall ++ "," ++ Demo.sellCall ++ ",],)")%string.

(** An address table with one configured chain, one chain without
    address, and no other entry. *)
Definition addresses (chain : ChainId) : option ContractAddresses :=
  match chain with
  | 1%N => Some {| quoter := Some "0xd8C3" |}
  | 5%N => Some {| quoter := None |}
  | _ => None
  end.

End Cases.

(** ** Arrays by reference

    [getUniswapV2SellQuotes] puts the caller's two arrays into
    [functionParams] as they are: the operation holds references, and the
    coder reads the arrays when [encodeCall] runs.  Here a JavaScript
    array lives in a cell of a heap, and the operation holds the indices
    of the cells. *)

Definition Ref : Type := nat.

Definition Heap : Type := list (list AbiValue).

(** The array a reference points to, as the coder sees it.  References
    come from arrays that exist, so the cell is there. *)
Definition array_read (h : Heap) (r : Ref) : AbiValue :=
  AbiArray (match nth_error h r with
            | Some elements => elements
            | None => []
            end).

(** The caller changes the elements of an array it still holds. *)
Fixpoint array_write (h : Heap) (r : Ref) (elements : list AbiValue) : Heap :=
  match h, r with
  | [], _ => []
  | _ :: rest, 0 => elements :: rest
  | cell :: rest, S r' => cell :: array_write rest r' elements
  end.

(** The fields of [SamplerContractOperation], with [functionParams] an
    array of references. *)
Record SamplerContractOperationByRef : Type := {
  byref_functionName : string;
  byref_functionParams : option (list Ref);
  byref_contractInterface : Interface;
  byref_protocol : Protocol
}.

(** The operation as it stands when the arrays hold what [h] says. *)
Definition dereferenced (h : Heap) (this : SamplerContractOperationByRef)
    : SamplerContractOperation :=
  {| this_functionName := byref_functionName this;
     this_functionParams :=
       option_map (map (array_read h)) (byref_functionParams this);
     this_contractInterface := byref_contractInterface this;
     this_protocol := byref_protocol this |}.

(** A method that runs on a heap: its result with its warnings, and the
    heap it leaves. *)
Definition HeapEff (A : Type) : Type := Heap -> Logged A * Heap.

Definition heap_ret {A} (a : A) : HeapEff A := fun h => (ret a, h).

Definition heap_bind {A B} (m : HeapEff A) (k : A -> HeapEff B) : HeapEff B :=
  fun h =>
    match m h with
    | ((Ok a, tr), h1) =>
        let '((r, tr'), h2) := k a h1 in ((r, tr ++ tr'), h2)
    | ((Throw e, tr), h1) => ((Throw e, tr), h1)
    end.

Notation "x <~ m ;; k" := (heap_bind m (fun x => k))
  (at level 61, m at next level, right associativity).

(** A step that does not touch the heap. *)
Definition heap_lift {A} (m : Logged A) : HeapEff A := fun h => (m, h).

(** Reading an array through its reference. *)
Definition heap_read (r : Ref) : HeapEff AbiValue :=
  fun h => (ret (array_read h r), h).

Fixpoint heap_read_all (refs : list Ref) : HeapEff (list AbiValue) :=
  match refs with
  | [] => heap_ret []
  | r :: rest =>
      v <~ heap_read r ;;
      vs <~ heap_read_all rest ;;
      heap_ret (v :: vs)
  end.

(** [encodeCall]: the fragment is looked up, then the coder reads the
    arrays of [functionParams] as they are at the time of the call. *)
Definition SamplerContractOperation_encodeCall_byref
    (this : SamplerContractOperationByRef) : HeapEff Payload :=
  fragment <~ heap_lift (pure (getFunction (byref_contractInterface this)
                                 (byref_functionName this))) ;;
  values <~ match byref_functionParams this with
            | Some refs => vs <~ heap_read_all refs ;; heap_ret (Some vs)
            | None => heap_ret None
            end ;;
  calldata <~ heap_lift (pure (encodeFunctionData
                                 (byref_contractInterface this)
                                 fragment values)) ;;
  heap_ret calldata.

(** [getUniswapV2SellQuotes] and [getUniswapV2BuyQuotes] on references:
    [functionParams] is a new array of the two references handed in. *)
Definition SamplerOperation_getUniswapV2SellQuotes_byref
    (createInterface : Interface) (tokenAddressPath takerFillAmounts : Ref)
    (protocol_arg : option Protocol) : SamplerContractOperationByRef :=
  {| byref_functionName := "sampleSellsFromUniswapV2";
     byref_functionParams := Some [tokenAddressPath; takerFillAmounts];
     byref_contractInterface := createInterface;
     byref_protocol := match protocol_arg with
                       | Some p => p
                       | None => UniswapV2
                       end |}.

Definition SamplerOperation_getUniswapV2BuyQuotes_byref
    (createInterface : Interface) (tokenAddressPath makerFillAmounts : Ref)
    (protocol_arg : option Protocol) : SamplerContractOperationByRef :=
  {| byref_functionName := "sampleBuysFromUniswapV2";
     byref_functionParams := Some [tokenAddressPath; makerFillAmounts];
     byref_contractInterface := createInterface;
     byref_protocol := match protocol_arg with
                       | Some p => p
                       | None => UniswapV2
                       end |}.

(** The references an operation holds. *)
Definition held (this : SamplerContractOperationByRef) : list Ref :=
  match byref_functionParams this with
  | Some refs => refs
  | None => []
  end.

(** ** A coder that checks what it is given

    [Strict.abi] is [Demo.abi] with two checks of the coder it stands
    for: [decodeErrorResult] looks for an error of the name it is given
    among the errors of the contract, and [encodeFunctionData] refuses
    hex data with an odd number of digits. *)
Module Strict.

(** The errors the contract declares.  The sampler contracts revert
    through [require] with a reason string, as [SamplerUtils.sol] does,
    and declare no error of their own. *)
Definition known_errors : list string := [].

(** ["0x"] and an odd number of digits. *)
Definition odd_hex (s : string) : bool :=
  String.prefix "0x" s && Nat.odd (String.length s - 2).

Fixpoint has_odd_hex (v : AbiValue) : bool :=
  match v with
  | AbiBigNumber _ => false
  | AbiString s => odd_hex s
  | AbiArray l =>
      (fix any (l : list AbiValue) : bool :=
         match l with
         | [] => false
         | x :: xs => has_odd_hex x || any xs
         end) l
  end.

Definition abi : Interface :=
  {| getFunction := getFunction Demo.abi;
     encodeFunctionData := fun fragment values =>
       if existsb has_odd_hex
            (match values with Some vs => vs | None => [] end)
       then Throw (Error "hex data is odd-length")
       else encodeFunctionData Demo.abi fragment values;
     decodeFunctionResult_0 := decodeFunctionResult_0 Demo.abi;
     decodeFunctionResult_callResults :=
       decodeFunctionResult_callResults Demo.abi;
     decodeErrorResult := fun name data =>
       if existsb (String.eqb name) known_errors
       then decodeErrorResult Demo.abi name data
       else Throw (Error "no matching error") |}.

Definition samplerOperation : SamplerOperation :=
  {| chainId := 1%N; contractInterface := abi |}.

Definition sampler : Sampler :=
  {| super := samplerOperation;
     samplerContract_callStatic_batchCall := Demo.node;
     samplerOverrides_blockNumber := None |}.

(** [Demo.localEcho] wrapped into a batch of its own. *)
Definition echoBatch : ContractOperation (list CallResult) :=
  SamplerOperation_createBatch samplerOperation [Demo.localEcho]
    (fun results => ret results) (fun _ => ret []).

(** A heap with the path and the amounts of the demo in its two cells. *)
Definition heap : Heap :=
  [map AbiString [Demo.WETH; Demo.DAI]; map AbiBigNumber Demo.amounts].

End Strict.

(** ** Words for the shape of the quotes *)


(** * Properties *)

(** ** The effect monad *)

Lemma bind_ret_l {E A B} (a : A) (k : A -> Eff E B) : bind (ret a) k = k a.
Proof. unfold bind, ret. destruct (k a); reflexivity. Qed.

Lemma bind_Ok {E A B} (a : A) (tr : list E) (k : A -> Eff E B) :
  bind (Ok a, tr) k = (outcome (k a), tr ++ trace (k a)).
Proof. unfold bind, outcome, trace. destruct (k a); reflexivity. Qed.

Lemma bind_Throw {E A B} (e : JsError) (tr : list E) (k : A -> Eff E B) :
  bind (Throw e, tr) k = (Throw e, tr).
Proof. reflexivity. Qed.

Lemma bind_ret_r {E A} (m : Eff E A) : bind m ret = m.
Proof.
  destruct m as [[a | e] tr]; simpl; [rewrite app_nil_r |]; reflexivity.
Qed.

Lemma bind_assoc {E A B C} (m : Eff E A) (k : A -> Eff E B)
    (h : B -> Eff E C) :
  bind (bind m k) h = bind m (fun a => bind (k a) h).
Proof.
  destruct m as [[a | e] tr]; simpl; [| reflexivity].
  destruct (k a) as [[b | e] tr']; simpl; [| reflexivity].
  destruct (h b) as [r tr'']. rewrite app_assoc. reflexivity.
Qed.

Lemma outcome_bind {E A B} (m : Eff E A) (k : A -> Eff E B) :
  outcome (bind m k) =
  match outcome m with
  | Ok a => outcome (k a)
  | Throw e => Throw e
  end.
Proof.
  destruct m as [[a | e] tr]; simpl; [| reflexivity].
  destruct (k a); reflexivity.
Qed.

Lemma trace_bind {E A B} (m : Eff E A) (k : A -> Eff E B) :
  trace (bind m k) =
  match outcome m with
  | Ok a => trace m ++ trace (k a)
  | Throw e => trace m
  end.
Proof.
  destruct m as [[a | e] tr]; simpl; [| reflexivity].
  destruct (k a); reflexivity.
Qed.

Lemma eff_eta {E A} (m : Eff E A) : m = (outcome m, trace m).
Proof. destruct m; reflexivity. Qed.

Lemma lift_ret {E E' A} (f : E -> E') (a : A) : lift f (ret a) = ret a.
Proof. reflexivity. Qed.

Lemma lift_bind {E E' A B} (f : E -> E') (m : Eff E A) (k : A -> Eff E B) :
  lift f (bind m k) = bind (lift f m) (fun a => lift f (k a)).
Proof.
  destruct m as [[a | e] tr]; simpl; [| reflexivity].
  unfold lift. destruct (k a) as [r tr']; simpl.
  rewrite map_app. reflexivity.
Qed.

Lemma outcome_lift {E E' A} (f : E -> E') (m : Eff E A) :
  outcome (lift f m) = outcome m.
Proof. reflexivity. Qed.

Lemma trace_lift {E E' A} (f : E -> E') (m : Eff E A) :
  trace (lift f m) = map f (trace m).
Proof. reflexivity. Qed.

Lemma warnings_app (tr1 tr2 : list Event) :
  warnings (tr1 ++ tr2) = warnings tr1 ++ warnings tr2.
Proof. apply flat_map_app. Qed.

Lemma warnings_map_Warn (log : list string) : warnings (map Warn log) = log.
Proof. induction log as [| m log IH]; simpl; [| rewrite IH]; reflexivity. Qed.

Lemma remote_calls_app (tr1 tr2 : list Event) :
  remote_calls (tr1 ++ tr2) = remote_calls tr1 + remote_calls tr2.
Proof. unfold remote_calls. rewrite filter_app, length_app. reflexivity. Qed.

Lemma remote_calls_map_Warn (log : list string) :
  remote_calls (map Warn log) = 0.
Proof. induction log as [| m log IH]; simpl; [reflexivity | exact IH]. Qed.

(** ** The array walk *)

Lemma lodash_map_from_cons {E A B} (f : A -> nat -> Eff E B) x xs i :
  lodash_map_from f (x :: xs) i =
  (y <- f x i ;; ys <- lodash_map_from f xs (S i) ;; ret (y :: ys)).
Proof. reflexivity. Qed.

Lemma lodash_map_from_ext {E A B} (f g : A -> nat -> Eff E B) l :
  forall start,
  (forall i x, nth_error l i = Some x -> f x (start + i) = g x (start + i)) ->
  lodash_map_from f l start = lodash_map_from g l start.
Proof.
  induction l as [| x xs IH]; intros start H; [reflexivity |].
  simpl. pose proof (H 0 x eq_refl) as H0. rewrite Nat.add_0_r in H0.
  rewrite H0, (IH (S start)); [reflexivity |].
  intros i y Hi. rewrite Nat.add_succ_comm. apply (H (S i)). exact Hi.
Qed.

(** Close a goal about a lifted walk once its computations are known. *)
Ltac lift_walk :=
  unfold lift; simpl; rewrite ?map_app; reflexivity.

Lemma lodash_map_from_lift {E E' A B} (t : E -> E')
    (f : A -> nat -> Eff E B) l :
  forall start,
  lodash_map_from (fun x i => lift t (f x i)) l start =
  lift t (lodash_map_from f l start).
Proof.
  induction l as [| x xs IH]; intros start; [reflexivity |].
  simpl. rewrite IH.
  destruct (f x start) as [[y | e] tr]; [| reflexivity].
  destruct (lodash_map_from f xs (S start)) as [[ys | e] tr']; lift_walk.
Qed.

(** The walk does not look at the index when the callback does not. *)
Lemma lodash_map_from_start {E A B} (f : A -> Eff E B) l :
  forall i j,
  lodash_map_from (fun x _ => f x) l i = lodash_map_from (fun x _ => f x) l j.
Proof.
  induction l as [| x xs IH]; intros i j; [reflexivity |].
  simpl. rewrite (IH (S i) (S j)). reflexivity.
Qed.

Lemma lodash_map_from_Ok {E A B} (f : A -> nat -> Eff E B) l :
  forall start results,
  outcome (lodash_map_from f l start) = Ok results ->
  length results = length l /\
  forall i x, nth_error l i = Some x ->
    exists r, nth_error results i = Some r /\
              outcome (f x (start + i)) = Ok r.
Proof.
  induction l as [| x xs IH]; intros start results H.
  - simpl in H. injection H as <-. split; [reflexivity |].
    intros [| i] x Hx; discriminate.
  - rewrite lodash_map_from_cons, outcome_bind in H.
    destruct (outcome (f x start)) as [y | e] eqn:Hy; [| discriminate].
    rewrite outcome_bind in H.
    destruct (outcome (lodash_map_from f xs (S start))) as [ys | e] eqn:Hys;
      [| discriminate].
    simpl in H. injection H as <-.
    destruct (IH _ _ Hys) as [Hlen Hnth]. split; [simpl; now rewrite Hlen |].
    intros [| i] z Hz; simpl in Hz.
    + injection Hz as <-. exists y. rewrite Nat.add_0_r. now split.
    + destruct (Hnth i z Hz) as [r [Hr Hf]]. exists r.
      rewrite <- Nat.add_succ_comm. now split.
Qed.

Lemma lodash_map_from_all_Ok {E A B} (f : A -> nat -> Eff E B) l :
  forall start results,
  length results = length l ->
  (forall i x, nth_error l i = Some x ->
     exists r, nth_error results i = Some r /\
               outcome (f x (start + i)) = Ok r) ->
  outcome (lodash_map_from f l start) = Ok results.
Proof.
  induction l as [| x xs IH]; intros start results Hlen H.
  - destruct results; [reflexivity | discriminate].
  - destruct results as [| y ys]; [discriminate |].
    rewrite lodash_map_from_cons, outcome_bind.
    destruct (H 0 x eq_refl) as [r [Hr Hf]]. simpl in Hr. injection Hr as <-.
    rewrite Nat.add_0_r in Hf. rewrite Hf, outcome_bind.
    rewrite (IH (S start) ys); [reflexivity | simpl in Hlen; lia |].
    intros i z Hz. destruct (H (S i) z Hz) as [r [Hr Hg]].
    exists r. rewrite Nat.add_succ_comm. now split.
Qed.

Lemma lodash_map_from_Throw {E A B} (f : A -> nat -> Eff E B) l :
  forall start k x e,
  nth_error l k = Some x ->
  outcome (f x (start + k)) = Throw e ->
  exists e', outcome (lodash_map_from f l start) = Throw e'.
Proof.
  induction l as [| y ys IH]; intros start k x e Hk Hf.
  - destruct k; discriminate.
  - rewrite lodash_map_from_cons, outcome_bind.
    destruct k as [| k]; simpl in Hk.
    + injection Hk as ->. rewrite Nat.add_0_r in Hf. rewrite Hf. now exists e.
    + destruct (outcome (f y start)) as [v | e0]; [| now exists e0].
      rewrite outcome_bind. rewrite <- Nat.add_succ_comm in Hf.
      destruct (IH (S start) k x e Hk Hf) as [e' He']. rewrite He'.
      now exists e'.
Qed.

Lemma lodash_map_Ok_length {E A B} (f : A -> nat -> Eff E B) l results :
  outcome (lodash_map f l) = Ok results -> length results = length l.
Proof. intros H. apply (lodash_map_from_Ok f l 0 results H). Qed.

(** ** The executor *)

Lemma array_get_middle {A} (pre : list A) x post :
  array_get (pre ++ x :: post) (length pre) = ret x.
Proof.
  unfold array_get. rewrite nth_error_app2, Nat.sub_diag by lia. reflexivity.
Qed.

Lemma app_cons_assoc {A} (pre : list A) x post :
  pre ++ x :: post = (pre ++ [x]) ++ post.
Proof. rewrite <- app_assoc. reflexivity. Qed.

Lemma length_snoc {A} (pre : list A) x : length (pre ++ [x]) = S (length pre).
Proof. rewrite length_app. simpl. lia. Qed.

Lemma encoded_lift {T} (ops : list (ContractOperation T)) :
  lodash_map (fun o _ => lift Warn (encodeCall o)) ops =
  lift Warn (lodash_map (fun o _ => encodeCall o) ops).
Proof. apply (lodash_map_from_lift Warn (fun o _ => encodeCall o)). Qed.

(** The first [_.map] over [callDatas] of [executeBatchAsync] reads
    [ops[i]] for each index of [callDatas]; the two arrays have one
    length, so it is a walk over [ops]. *)
Lemma local_results_from {T} (cds : list Payload) :
  forall (pre ops : list (ContractOperation T)),
  length ops = length cds ->
  lodash_map_from (fun _ i =>
      op <- array_get (pre ++ ops) i ;;
      lift Warn (handleCallResults op (Some NULL_BYTES))) cds (length pre) =
  lift Warn (lodash_map_from (fun op _ =>
      handleCallResults op (Some NULL_BYTES)) ops (length pre)).
Proof.
  induction cds as [| cd cds IH]; intros pre ops Hlen.
  - destruct ops; [reflexivity | discriminate].
  - destruct ops as [| op ops]; [discriminate |].
    rewrite !lodash_map_from_cons, lift_bind.
    rewrite array_get_middle, bind_ret_l.
    rewrite app_cons_assoc, <- length_snoc with (x := op).
    rewrite IH by (simpl in Hlen; lia).
    destruct (handleCallResults op (Some NULL_BYTES)) as [[r | e] tr];
      [| reflexivity].
    destruct (lodash_map_from _ ops _) as [[rs | e] tr']; lift_walk.
Qed.

Lemma slot_of_middle (pre : list Payload) cd post raws n :
  n = length pre ->
  slot_of (pre ++ cd :: post) raws n =
  if is_call cd
  then nth_error raws (length (filter is_call pre))
  else Some NULL_BYTES.
Proof.
  intros ->. unfold slot_of.
  rewrite nth_error_app2, Nat.sub_diag by lia. simpl.
  rewrite firstn_app, Nat.sub_diag, firstn_all. simpl.
  rewrite app_nil_r. reflexivity.
Qed.

Lemma parsed_results_cons {T} (ops : list (ContractOperation T)) raws cd
    rest i idx :
  parsed_results ops raws (cd :: rest) i idx =
  (op <- array_get ops i ;;
   r <- lift Warn (handleCallResults op
          (if is_call cd then nth_error raws idx else Some NULL_BYTES)) ;;
   rs <- parsed_results ops raws rest (S i)
           (if is_call cd then S idx else idx) ;;
   ret (r :: rs)).
Proof.
  unfold is_call. simpl.
  destruct (negb (cd =? NULL_BYTES)%string); reflexivity.
Qed.

(** The second [_.map] of [executeBatchAsync], with its counter, hands the
    operation at index [i] the slot the specification describes. *)
Lemma parsed_results_from {T} (raws : list Payload) (cds : list Payload) :
  forall (pre_ops ops : list (ContractOperation T)) (pre_cds : list Payload),
  length pre_ops = length pre_cds ->
  length ops = length cds ->
  parsed_results (pre_ops ++ ops) raws cds
    (length pre_ops) (length (filter is_call pre_cds)) =
  lift Warn (lodash_map_from (fun op i =>
      handleCallResults op (slot_of (pre_cds ++ cds) raws i))
    ops (length pre_ops)).
Proof.
  induction cds as [| cd cds IH]; intros pre_ops ops pre_cds Hpre Hlen.
  - destruct ops; [reflexivity | discriminate].
  - destruct ops as [| op ops]; [discriminate |].
    rewrite lodash_map_from_cons, parsed_results_cons.
    rewrite (slot_of_middle pre_cds cd cds raws _ Hpre).
    assert (Hnext := IH (pre_ops ++ [op]) ops (pre_cds ++ [cd])).
    rewrite <- !app_assoc, !length_snoc in Hnext. simpl app in Hnext.
    specialize (Hnext ltac:(lia) ltac:(simpl in Hlen; lia)).
    rewrite filter_app, length_app in Hnext. simpl in Hnext.
    rewrite array_get_middle, bind_ret_l.
    replace (if is_call cd
             then S (length (filter is_call pre_cds))
             else length (filter is_call pre_cds))
      with (length (filter is_call pre_cds)
            + length (if is_call cd then [cd] else []))
      by (destruct (is_call cd); simpl; lia).
    rewrite Hnext.
    destruct (handleCallResults op _) as [[r | e] tr]; [| reflexivity].
    destruct (lodash_map_from _ ops _) as [[rs | e] tr']; lift_walk.
Qed.

Lemma parsed_results_slots {T} (ops : list (ContractOperation T)) raws cds :
  length ops = length cds ->
  parsed_results ops raws cds 0 0 =
  lift Warn (lodash_map (fun op i =>
    handleCallResults op (slot_of cds raws i)) ops).
Proof.
  intros Hlen.
  apply (parsed_results_from raws cds [] ops [] eq_refl Hlen).
Qed.

Lemma forallb_sentinel_no_call (cds : list Payload) :
  forallb (fun cd => (cd =? NULL_BYTES)%string) cds =
  negb (existsb is_call cds).
Proof.
  induction cds as [| cd cds IH]; [reflexivity |].
  simpl. rewrite IH. unfold is_call.
  destruct (cd =? NULL_BYTES)%string; reflexivity.
Qed.

Lemma callStatic_batchCall_run (this : Sampler) callDatas blockTag :
  callStatic_batchCall this callDatas blockTag =
  (samplerContract_callStatic_batchCall this callDatas blockTag,
   [RemoteBatchCall callDatas blockTag]).
Proof. reflexivity. Qed.

Lemma executeBatchAsync_encoded {T} (this : Sampler)
    (ops : list (ContractOperation T)) callDatas log :
  lodash_map (fun o _ => encodeCall o) ops = (Ok callDatas, log) ->
  Sampler_executeBatchAsync this ops =
  (let k :=
     if forallb (fun cd => (cd =? NULL_BYTES)%string) callDatas
     then lift Warn (lodash_map (fun op _ =>
            handleCallResults op (Some NULL_BYTES)) ops)
     else
       rawCallResults <-
         callStatic_batchCall this (filter is_call callDatas)
           (samplerOverrides_blockNumber this) ;;
       lift Warn (lodash_map (fun op i =>
         handleCallResults op (slot_of callDatas rawCallResults i)) ops) in
   (outcome k, map Warn log ++ trace k)).
Proof.
  intros Henc.
  assert (Hlen : length ops = length callDatas).
  { symmetry. apply (lodash_map_Ok_length (fun o _ => encodeCall o)).
    rewrite Henc. reflexivity. }
  unfold Sampler_executeBatchAsync.
  rewrite encoded_lift, Henc. unfold lift at 1. cbn [fst snd].
  rewrite bind_Ok. cbv zeta.
  destruct (forallb (fun cd => (cd =? NULL_BYTES)%string) callDatas).
  - unfold lodash_map.
    pose proof (local_results_from callDatas [] ops Hlen) as Hlocal.
    cbn [app length] in Hlocal. rewrite Hlocal. reflexivity.
  - fold is_call.
    destruct (callStatic_batchCall this _ _) as [[raws | e] tr]; [| reflexivity].
    rewrite !bind_Ok, parsed_results_slots by exact Hlen. reflexivity.
Qed.

(** C3.  When every operation encodes to the no-op sentinel,
    [executeBatchAsync] makes no remote invocation, and its result is the
    list of [ops[i].handleCallResults(NULL_BYTES)], operation by operation
    and in the order of [ops]; the trace holds only the warnings of the
    operations.  When the run returns [results], [results[i]] is the value
    of [ops[i].handleCallResults(NULL_BYTES)] for every index. *)
Theorem executeBatchAsync_all_sentinel_resolves_locally :
  forall (T : Type) (this : Sampler) (ops : list (ContractOperation T)),
    (forall op, In op ops -> outcome (encodeCall op) = Ok NULL_BYTES) ->
    let encoded := lodash_map (fun o _ => encodeCall o) ops in
    let decoded :=
      lodash_map (fun op _ => handleCallResults op (Some NULL_BYTES)) ops in
    Sampler_executeBatchAsync this ops =
      (outcome decoded, map Warn (trace encoded ++ trace decoded)) /\
    remote_calls (trace (Sampler_executeBatchAsync this ops)) = 0 /\
    (forall results,
       outcome (Sampler_executeBatchAsync this ops) = Ok results ->
       decoded_by (fun op _ => handleCallResults op (Some NULL_BYTES))
         ops results).
Proof.
  intros T this ops Hall encoded decoded.
  assert (Henc : outcome encoded = Ok (map (fun _ => NULL_BYTES) ops)).
  { apply lodash_map_from_all_Ok; [apply length_map |].
    intros i op Hi. exists NULL_BYTES. split.
    - rewrite nth_error_map, Hi. reflexivity.
    - apply Hall. eapply nth_error_In. exact Hi. }
  assert (Hrun : Sampler_executeBatchAsync this ops =
                 (outcome decoded, map Warn (trace encoded ++ trace decoded))).
  { rewrite (executeBatchAsync_encoded this ops _ (trace encoded))
      by (rewrite <- Henc; apply eff_eta).
    replace (forallb _ (map (fun _ => NULL_BYTES) ops)) with true.
    - cbv zeta. rewrite outcome_lift, trace_lift, map_app. reflexivity.
    - symmetry. apply forallb_forall. intros cd Hcd.
      apply in_map_iff in Hcd. destruct Hcd as [_ [<- _]]. reflexivity. }
  rewrite Hrun. split; [reflexivity |]. split.
  - apply remote_calls_map_Warn.
  - intros results Hres. apply lodash_map_from_Ok in Hres. exact Hres.
Qed.

(** C10.  On the empty list the sentinel test holds vacuously, so the
    local branch is taken: [executeBatchAsync] returns the empty list and
    leaves an empty trace, hence no remote invocation. *)
Theorem executeBatchAsync_empty :
  forall (T : Type) (this : Sampler),
    forallb (fun cd => (cd =? NULL_BYTES)%string) [] = true /\
    Sampler_executeBatchAsync this (@nil (ContractOperation T)) = (Ok [], []) /\
    remote_calls (trace (Sampler_executeBatchAsync this
                           (@nil (ContractOperation T)))) = 0.
Proof. intros T this. repeat split. Qed.

Lemma executeBatchAsync_remote_run {T} (this : Sampler)
    (ops : list (ContractOperation T)) callDatas log rawCallResults :
  lodash_map (fun o _ => encodeCall o) ops = (Ok callDatas, log) ->
  existsb is_call callDatas = true ->
  samplerContract_callStatic_batchCall this (filter is_call callDatas)
    (samplerOverrides_blockNumber this) = Ok rawCallResults ->
  Sampler_executeBatchAsync this ops =
  (outcome (lodash_map (fun op i =>
     handleCallResults op (slot_of callDatas rawCallResults i)) ops),
   map Warn log
   ++ [RemoteBatchCall (filter is_call callDatas)
         (samplerOverrides_blockNumber this)]
   ++ map Warn (trace (lodash_map (fun op i =>
        handleCallResults op (slot_of callDatas rawCallResults i)) ops))).
Proof.
  intros Henc Hsome Hremote.
  rewrite (executeBatchAsync_encoded this ops callDatas log Henc).
  rewrite forallb_sentinel_no_call, Hsome. cbn [negb]. cbv zeta.
  rewrite callStatic_batchCall_run, Hremote, bind_Ok. reflexivity.
Qed.

(** C2.  When the operations encode to [callDatas], at least one of them
    is not the sentinel, and the remote call returns [rawCallResults]:
    one remote invocation is made, and it carries exactly the non-sentinel
    payloads in their original order; the run decodes, for every index
    [i], [ops[i].handleCallResults] on [slot_of callDatas rawCallResults i]
    (the sentinel for a sentinel payload, else the next remote result not
    yet consumed); and when it returns [results], that list has the length
    of [ops] and [results[i]] is the value decoded by [ops[i]]. *)
Theorem executeBatchAsync_splices_remote_results :
  forall (T : Type) (this : Sampler) (ops : list (ContractOperation T))
         (callDatas : list Payload) (log : list string)
         (rawCallResults : list Payload),
    lodash_map (fun o _ => encodeCall o) ops = (Ok callDatas, log) ->
    existsb is_call callDatas = true ->
    samplerContract_callStatic_batchCall this (filter is_call callDatas)
      (samplerOverrides_blockNumber this) = Ok rawCallResults ->
    let decoded :=
      lodash_map (fun op i =>
        handleCallResults op (slot_of callDatas rawCallResults i)) ops in
    Sampler_executeBatchAsync this ops =
      (outcome decoded,
       map Warn log
       ++ [RemoteBatchCall (filter is_call callDatas)
             (samplerOverrides_blockNumber this)]
       ++ map Warn (trace decoded)) /\
    remote_calls (trace (Sampler_executeBatchAsync this ops)) = 1 /\
    (forall results,
       outcome (Sampler_executeBatchAsync this ops) = Ok results ->
       length results = length ops /\
       decoded_by (fun op i =>
         handleCallResults op (slot_of callDatas rawCallResults i))
         ops results).
Proof.
  intros T this ops callDatas log raws Henc Hsome Hremote decoded.
  assert (Hrun := executeBatchAsync_remote_run this ops callDatas log raws
                    Henc Hsome Hremote).
  fold decoded in Hrun.
  rewrite Hrun. split; [reflexivity |]. split.
  - cbn [trace snd]. rewrite !remote_calls_app, !remote_calls_map_Warn.
    reflexivity.
  - intros results Hres. cbn [outcome fst] in Hres.
    pose proof (lodash_map_from_Ok _ _ _ _ Hres) as Hdec.
    split; [apply Hdec | exact Hdec].
Qed.

(** ** Route expansion *)

Section Expansion.

Variable createInterface : Interface.
Variable this : SamplerOperation.
Variable amounts : list BigNumber.

Lemma getSellQuoteOperations_walk routes :
  SamplerOperation_getSellQuoteOperations createInterface this amounts routes
  = lodash_map (expand_route amounts
      (SamplerOperation_getUniswapV2SellQuotes createInterface this) "sell")
      routes.
Proof.
  unfold SamplerOperation_getSellQuoteOperations. rewrite bind_ret_r.
  apply lodash_map_from_ext. intros i [[| | name] path] _; reflexivity.
Qed.

Lemma getBuyQuoteOperations_walk routes :
  SamplerOperation_getBuyQuoteOperations createInterface this amounts routes
  = lodash_map (expand_route amounts
      (SamplerOperation_getUniswapV2BuyQuotes createInterface this) "buy")
      routes.
Proof.
  unfold SamplerOperation_getBuyQuoteOperations. rewrite bind_ret_r.
  apply lodash_map_from_ext. intros i [[| | name] path] _; reflexivity.
Qed.

Lemma expand_recognized make side routes :
  forall start,
  forallb (fun r => recognized (route_protocol r)) routes = true ->
  lodash_map_from (expand_route amounts make side) routes start =
  (Ok (map (fun r => make (route_path r) amounts (Some (route_protocol r)))
         routes), []).
Proof.
  induction routes as [| r rs IH]; intros start Hall; [reflexivity |].
  simpl in Hall. apply andb_prop in Hall. destruct Hall as [Hr Hrs].
  rewrite lodash_map_from_cons, (IH (S start) Hrs).
  unfold expand_route. destruct r as [[| | name] path];
    try discriminate; reflexivity.
Qed.

Lemma expand_unrecognized make side pre r post :
  forall start,
  forallb (fun r => recognized (route_protocol r)) pre = true ->
  recognized (route_protocol r) = false ->
  lodash_map_from (expand_route amounts make side) (pre ++ r :: post) start =
  (Throw (Error ("Unsupported " ++ side ++ " sample protocol: "
                 ++ Protocol_toString (route_protocol r))%string), []).
Proof.
  induction pre as [| q pre IH]; intros start Hpre Hr.
  - simpl app. rewrite lodash_map_from_cons. unfold expand_route.
    destruct r as [[| | name] path]; try discriminate. reflexivity.
  - simpl in Hpre. apply andb_prop in Hpre. destruct Hpre as [Hq Hpre].
    simpl app. rewrite lodash_map_from_cons, (IH (S start) Hpre Hr).
    unfold expand_route. destruct q as [[| | name] path];
      try discriminate; reflexivity.
Qed.

End Expansion.

(** The first route the [switch] rejects. *)
Lemma first_unrecognized (routes : list SamplerRoute) :
  existsb (fun r => negb (recognized (route_protocol r))) routes = true ->
  exists pre r post,
    routes = pre ++ r :: post /\
    forallb (fun r => recognized (route_protocol r)) pre = true /\
    recognized (route_protocol r) = false.
Proof.
  induction routes as [| q routes IH]; [discriminate |].
  simpl. destruct (recognized (route_protocol q)) eqn:Hq; simpl.
  - intros H. destruct (IH H) as [pre [r [post [-> [Hpre Hr]]]]].
    exists (q :: pre), r, post. repeat split; [| exact Hr].
    simpl. rewrite Hq, Hpre. reflexivity.
  - intros _. exists [], q, routes. repeat split. exact Hq.
Qed.

(** C4.  When some route has a classification the [switch] does not
    accept, both expansions throw: the error names the classification of
    the first such route, no list of operations is returned, and the trace
    is empty, so no remote call is made.  [getSellQuotes] and
    [getBuyQuotes] throw the same error, again without a remote call. *)
Theorem expansion_rejects_unrecognized_protocol :
  forall (createInterface : Interface) (this : SamplerOperation)
         (amounts : list BigNumber) (routes : list SamplerRoute),
    existsb (fun r => negb (recognized (route_protocol r))) routes = true ->
    exists pre r post,
      routes = pre ++ r :: post /\
      forallb (fun r => recognized (route_protocol r)) pre = true /\
      recognized (route_protocol r) = false /\
      SamplerOperation_getSellQuoteOperations createInterface this amounts
        routes =
        (Throw (Error ("Unsupported sell sample protocol: "
                       ++ Protocol_toString (route_protocol r))%string), []) /\
      SamplerOperation_getBuyQuoteOperations createInterface this amounts
        routes =
        (Throw (Error ("Unsupported buy sample protocol: "
                       ++ Protocol_toString (route_protocol r))%string), []) /\
      outcome (SamplerOperation_getSellQuotes createInterface this amounts
                 routes) =
        Throw (Error ("Unsupported sell sample protocol: "
                      ++ Protocol_toString (route_protocol r))%string) /\
      outcome (SamplerOperation_getBuyQuotes createInterface this amounts
                 routes) =
        Throw (Error ("Unsupported buy sample protocol: "
                      ++ Protocol_toString (route_protocol r))%string) /\
      remote_calls (trace (SamplerOperation_getSellQuotes createInterface
                             this amounts routes)) = 0 /\
      remote_calls (trace (SamplerOperation_getBuyQuotes createInterface
                             this amounts routes)) = 0.
Proof.
  intros createInterface this amounts routes Hbad.
  destruct (first_unrecognized routes Hbad) as [pre [r [post [-> [Hpre Hr]]]]].
  exists pre, r, post.
  assert (Hsell := expand_unrecognized amounts
    (SamplerOperation_getUniswapV2SellQuotes createInterface this) "sell"
    pre r post 0 Hpre Hr).
  assert (Hbuy := expand_unrecognized amounts
    (SamplerOperation_getUniswapV2BuyQuotes createInterface this) "buy"
    pre r post 0 Hpre Hr).
  unfold SamplerOperation_getSellQuotes, SamplerOperation_getBuyQuotes.
  rewrite getSellQuoteOperations_walk, getBuyQuoteOperations_walk.
  unfold lodash_map. rewrite Hsell, Hbuy.
  repeat split; assumption.
Qed.

(** C5.  When every route has a recognized classification, each
    expansion returns one operation per route, in the order of [routes];
    the operation of a route is built from that route's path and the
    shared [amounts], and carries the route's classification.  A
    [SushiSwap] route uses the sampler function of [UniswapV2] (the call
    data are equal) and still reports [SushiSwap]. *)
Theorem expansion_keeps_order_and_classification :
  forall (createInterface : Interface) (this : SamplerOperation)
         (amounts : list BigNumber) (routes : list SamplerRoute),
    forallb (fun r => recognized (route_protocol r)) routes = true ->
    let built (functionName : string) (r : SamplerRoute) :=
      SamplerContractOperation_object
        {| this_functionName := functionName;
           this_functionParams :=
             Some [AbiArray (map AbiString (route_path r));
                   AbiArray (map AbiBigNumber amounts)];
           this_contractInterface := createInterface;
           this_protocol := route_protocol r |} in
    SamplerOperation_getSellQuoteOperations createInterface this amounts
      routes = (Ok (map (built "sampleSellsFromUniswapV2") routes), []) /\
    SamplerOperation_getBuyQuoteOperations createInterface this amounts
      routes = (Ok (map (built "sampleBuysFromUniswapV2") routes), []) /\
    (forall functionName,
       map protocol (map (built functionName) routes) =
       map route_protocol routes) /\
    (forall path,
       protocol (SamplerOperation_getUniswapV2SellQuotes createInterface this
                   path amounts (Some SushiSwap)) = SushiSwap /\
       encodeCall (SamplerOperation_getUniswapV2SellQuotes createInterface
                     this path amounts (Some SushiSwap)) =
       encodeCall (SamplerOperation_getUniswapV2SellQuotes createInterface
                     this path amounts (Some UniswapV2))).
Proof.
  intros createInterface this amounts routes Hall built.
  rewrite getSellQuoteOperations_walk, getBuyQuoteOperations_walk.
  unfold lodash_map. rewrite !expand_recognized by exact Hall.
  repeat split.
  intros functionName. rewrite map_map. reflexivity.
Qed.

(** ** The quotes combinator *)


Lemma lodash_map_pure_from_nth {A B} (f : A -> nat -> B) l :
  forall start i,
  nth_error (lodash_map_pure_from f l start) i =
  option_map (fun x => f x (start + i)) (nth_error l i).
Proof.
  induction l as [| x xs IH]; intros start [| i]; simpl; try reflexivity.
  - rewrite Nat.add_0_r. reflexivity.
  - rewrite IH, Nat.add_succ_comm. reflexivity.
Qed.


(** ** Single operations *)

(** [handleRevert] of a sampler operation first decodes
    the error with the ABI coder.  When the coder accepts the payload, it
    returns the empty sequence and logs one warning; when the coder
    throws, [handleRevert] throws that error and logs nothing.  The
    failure decoder that [getSellQuotes] and [getBuyQuotes] give their
    batch always returns the empty aggregate and logs nothing. *)
Theorem handleRevert_follows_decodeErrorResult :
  forall (this : SamplerContractOperation) (callResults : CallResult),
    SamplerContractOperation_handleRevert this callResults =
    match decodeErrorResult (this_contractInterface this)
            (this_functionName this) callResults with
    | Ok msg =>
        (Ok [],
         [("Sampler Operation: " ++ Protocol_toString (this_protocol this)
           ++ "." ++ this_functionName this ++ " reverted " ++ msg)%string])
    | Throw e => (Throw e, [])
    end /\
    (forall (T TResult : Type) (batcher : SamplerOperation)
            (subOps : list (ContractOperation TResult))
            (resultHandler : list TResult -> Logged (list T)),
       handleRevert
         (SamplerOperation_createBatch batcher subOps resultHandler
            (fun _ => ret []))
         callResults = (Ok [], [])).
Proof.
  intros this callResults. split; [| reflexivity].
  unfold SamplerContractOperation_handleRevert.
  destruct (decodeErrorResult _ _ _); reflexivity.
Qed.

Lemma lodash_map_from_trace_nil {E A B} (f : A -> nat -> Eff E B) l :
  forall start,
  (forall x i, In x l -> trace (f x i) = []) ->
  trace (lodash_map_from f l start) = [].
Proof.
  induction l as [| x xs IH]; intros start H; [reflexivity |].
  rewrite lodash_map_from_cons, trace_bind, (H x start (or_introl eq_refl)).
  destruct (outcome (f x start)); [| reflexivity].
  rewrite trace_bind, (IH (S start)) by (intros y i Hy; apply H; now right).
  destruct (outcome (lodash_map_from f xs (S start))); reflexivity.
Qed.

(** [encodeCall] of a sampler operation leaves no event, and its
    payload is what the ABI coder returns for the function name and
    parameters the operation was constructed with: two operations built
    from the same coder, name and parameters encode alike.  [encodeCall]
    of a batch leaves no event when its sub-operations leave none. *)
Theorem encodeCall_deterministic :
  forall (options : SamplerContractOption),
    let this := SamplerContractOperation_new options in
    trace (SamplerContractOperation_encodeCall this) = [] /\
    outcome (SamplerContractOperation_encodeCall this) =
      match getFunction (option_contractInterface options)
              (option_functionName options) with
      | Ok fragment =>
          encodeFunctionData (option_contractInterface options) fragment
            (option_functionParams options)
      | Throw e => Throw e
      end /\
    (forall options',
      option_contractInterface options' = option_contractInterface options ->
      option_functionName options' = option_functionName options ->
      option_functionParams options' = option_functionParams options ->
      encodeCall (SamplerContractOperation_object
                    (SamplerContractOperation_new options')) =
      encodeCall (SamplerContractOperation_object this)) /\
    (forall (T TResult : Type) (batcher : SamplerOperation)
            (subOps : list (ContractOperation TResult))
            (resultHandler : list TResult -> Logged T)
            (revertHandler : CallResult -> Logged T),
       (forall op, In op subOps -> trace (encodeCall op) = []) ->
       trace (encodeCall (SamplerOperation_createBatch batcher subOps
                            resultHandler revertHandler)) = []).
Proof.
  intros options this.
  assert (Hbatch :
    forall (T TResult : Type) (batcher : SamplerOperation)
           (subOps : list (ContractOperation TResult))
           (resultHandler : list TResult -> Logged T)
           (revertHandler : CallResult -> Logged T),
      (forall op, In op subOps -> trace (encodeCall op) = []) ->
      trace (encodeCall (SamplerOperation_createBatch batcher subOps
                           resultHandler revertHandler)) = []).
  { intros T TResult batcher subOps resultHandler revertHandler Hsub.
    unfold SamplerOperation_createBatch. cbn [encodeCall].
    rewrite trace_bind. unfold lodash_map.
    rewrite lodash_map_from_trace_nil by (intros x i Hx; apply Hsub, Hx).
    destruct (outcome (lodash_map_from _ subOps 0)); reflexivity. }
  unfold SamplerContractOperation_encodeCall; simpl.
  repeat split; [| | | exact Hbatch].
  - destruct (getFunction _ _) as [fragment | e]; [| reflexivity].
    simpl. destruct (encodeFunctionData _ _ _); reflexivity.
  - destruct (getFunction _ _) as [fragment | e]; [| reflexivity].
    simpl. destruct (encodeFunctionData _ _ _); reflexivity.
  - intros options' Hi Hn Hp.
    unfold SamplerContractOperation_encodeCall; simpl.
    rewrite Hi, Hn, Hp. reflexivity.
Qed.

(** ** Composition *)

Lemma lodash_map_from_map {E A A' B} (g : A -> A') (f : A' -> nat -> Eff E B)
    l :
  forall start,
  lodash_map_from f (map g l) start =
  lodash_map_from (fun x i => f (g x) i) l start.
Proof.
  induction l as [| x xs IH]; intros start; [reflexivity |].
  simpl. rewrite IH. reflexivity.
Qed.

Lemma lodash_map_singleton {E A B} (f : A -> nat -> Eff E B) x :
  lodash_map f [x] = (y <- f x 0 ;; ret [y]).
Proof.
  unfold lodash_map. simpl. destruct (f x 0) as [[y | e] tr]; reflexivity.
Qed.

Lemma createBatch_handleCallResults {T TResult} (this : SamplerOperation)
    (subOps : list (ContractOperation TResult)) resultHandler
    (revertHandler : CallResult -> Logged T) callResults slots :
  decodeFunctionResult_callResults (contractInterface this) "batchCall"
    callResults = Ok slots ->
  handleCallResults
    (SamplerOperation_createBatch this subOps resultHandler revertHandler)
    callResults =
  (results <- lodash_map (fun op i =>
     handleCallResults op (nth_error slots i)) subOps ;;
   resultHandler results).
Proof.
  intros Hdec. unfold SamplerOperation_createBatch.
  cbn [handleCallResults]. rewrite Hdec. unfold pure. rewrite bind_Ok.
  cbn [app]. symmetry. apply eff_eta.
Qed.

(** C1, as amended.  Decoding the result of a batch hands every slot of
    the unwrapped result to the success decoder [handleCallResults] of its
    sub-operation, whatever the slot carries.  When every sub-operation
    decodes its slot, the outcome is that of the result handler on the
    decoded values.  When the success decoder of some sub-operation throws
    on its slot, the whole decode throws: no neutral value takes the place
    of the slot.  The failure decoders of the sub-operations play no part:
    replacing them changes neither the outcome nor the warnings.  Decoding
    the same bytes again gives the same result. *)
Theorem createBatch_decodes_every_slot_by_handleCallResults :
  forall (T TResult : Type) (this : SamplerOperation)
         (subOps : list (ContractOperation TResult))
         (resultHandler : list TResult -> Logged T)
         (revertHandler : CallResult -> Logged T)
         (callResults : CallResult) (slots : list Payload),
    decodeFunctionResult_callResults (contractInterface this) "batchCall"
      callResults = Ok slots ->
    let batch :=
      SamplerOperation_createBatch this subOps resultHandler revertHandler in
    let decode := fun (op : ContractOperation TResult) (i : nat) =>
      handleCallResults op (nth_error slots i) in
    (forall values,
       decoded_by decode subOps values ->
       outcome (handleCallResults batch callResults) =
       outcome (resultHandler values)) /\
    (forall k op e,
       nth_error subOps k = Some op ->
       outcome (decode op k) = Throw e ->
       exists e', outcome (handleCallResults batch callResults) = Throw e') /\
    (forall h,
       handleCallResults
         (SamplerOperation_createBatch this
            (map (with_handleRevert h) subOps) resultHandler revertHandler)
         callResults =
       handleCallResults batch callResults) /\
    (forall callResults',
       callResults' = callResults ->
       handleCallResults batch callResults' =
       handleCallResults batch callResults).
Proof.
  intros T TResult this subOps resultHandler revertHandler callResults slots
    Hdec batch decode.
  subst batch decode.
  rewrite (createBatch_handleCallResults _ _ _ _ _ _ Hdec).
  repeat split.
  - intros values [Hlen Hvals]. rewrite outcome_bind.
    unfold lodash_map.
    rewrite (lodash_map_from_all_Ok
               (fun op i => handleCallResults op (nth_error slots i))
               subOps 0 values Hlen Hvals).
    reflexivity.
  - intros k op e Hk He. rewrite outcome_bind.
    destruct (lodash_map_from_Throw
                (fun op i => handleCallResults op (nth_error slots i))
                subOps 0 k op e Hk He) as [e' He'].
    unfold lodash_map. rewrite He'. now exists e'.
  - intros h. rewrite (createBatch_handleCallResults _ _ _ _ _ _ Hdec).
    unfold lodash_map. rewrite lodash_map_from_map. reflexivity.
  - intros callResults' ->.
    apply (createBatch_handleCallResults _ _ _ _ _ _ Hdec).
Qed.

Lemma all_calls_filter (cds : list Payload) :
  forallb is_call cds = true -> filter is_call cds = cds.
Proof.
  induction cds as [| cd cds IH]; [reflexivity |].
  simpl. intros H. apply andb_prop in H. destruct H as [Hcd Hcds].
  rewrite Hcd, (IH Hcds). reflexivity.
Qed.

Lemma all_calls_slot_of (cds raws : list Payload) i :
  forallb is_call cds = true ->
  i < length cds ->
  slot_of cds raws i = nth_error raws i.
Proof.
  intros Hall Hi. unfold slot_of.
  destruct (nth_error cds i) as [cd |] eqn:Hcd.
  - assert (Hin : In cd cds) by (eapply nth_error_In; exact Hcd).
    rewrite (proj1 (forallb_forall _ _) Hall cd Hin).
    rewrite all_calls_filter.
    + rewrite length_firstn, Nat.min_l by lia. reflexivity.
    + apply forallb_forall. intros x Hx.
      apply (proj1 (forallb_forall _ _) Hall).
      rewrite <- (firstn_skipn i cds). apply in_or_app. now left.
  - apply nth_error_None in Hcd. lia.
Qed.

(** Direct execution of operations none of whose payloads is the
    sentinel: each decodes the remote result at its own index. *)
Lemma executeBatchAsync_all_calls {T} (this : Sampler)
    (ops : list (ContractOperation T)) callDatas log raws :
  lodash_map (fun o _ => encodeCall o) ops = (Ok callDatas, log) ->
  forallb is_call callDatas = true ->
  samplerContract_callStatic_batchCall this callDatas
    (samplerOverrides_blockNumber this) = Ok raws ->
  let decoded :=
    lodash_map (fun op i => handleCallResults op (nth_error raws i)) ops in
  outcome (Sampler_executeBatchAsync this ops) = outcome decoded /\
  warnings (trace (Sampler_executeBatchAsync this ops)) =
    log ++ trace decoded.
Proof.
  intros Henc Hall Hremote decoded.
  assert (Hlen : length callDatas = length ops).
  { apply (lodash_map_Ok_length (fun o _ => encodeCall o)).
    rewrite Henc. reflexivity. }
  destruct ops as [| op ops].
  - destruct callDatas; [| discriminate].
    unfold lodash_map in Henc. simpl in Henc. injection Henc as <-.
    split; reflexivity.
  - assert (Hsome : existsb is_call callDatas = true).
    { destruct callDatas as [| cd cds]; [discriminate |].
      simpl in Hall |- *. apply andb_prop in Hall. destruct Hall as [-> _].
      reflexivity. }
    assert (Hsame :
      lodash_map (fun o i => handleCallResults o (slot_of callDatas raws i))
        (op :: ops) = decoded).
    { apply lodash_map_from_ext. intros i x Hi. simpl.
      rewrite all_calls_slot_of; [reflexivity | exact Hall |].
      rewrite Hlen. apply nth_error_Some. rewrite Hi. discriminate. }
    rewrite <- (all_calls_filter callDatas Hall) in Hremote.
    assert (Hrun := executeBatchAsync_remote_run this (op :: ops)
                      callDatas log raws Henc Hsome Hremote).
    rewrite Hrun, Hsame. split; [reflexivity |].
    cbn [trace snd]. rewrite !warnings_app, !warnings_map_Warn.
    reflexivity.
Qed.

(** C8, as amended.  Let no payload of the sub-operations be the
    sentinel, let the wrapped payload not be the sentinel either, and let
    the node answer the wrapped payload with a wrapping of its answers to
    the sub-payloads.  Then executing the composed operation alone has the
    outcome of executing the sub-operations directly and applying the
    result handler (as the single element of the result list), and both
    runs log the same warnings. *)
Theorem compose_then_execute_matches_direct_execution :
  forall (T TResult : Type) (this : Sampler)
         (subOps : list (ContractOperation TResult))
         (resultHandler : list TResult -> Logged T)
         (revertHandler : CallResult -> Logged T)
         (subCalls : list Payload) (log : list string)
         (outer outerResult : Payload) (more raws : list Payload),
    lodash_map (fun o _ => encodeCall o) subOps = (Ok subCalls, log) ->
    forallb is_call subCalls = true ->
    encodeFunctionData (contractInterface (super this)) "batchCall"
      (Some [AbiArray (map AbiString subCalls)]) = Ok outer ->
    is_call outer = true ->
    samplerContract_callStatic_batchCall this subCalls
      (samplerOverrides_blockNumber this) = Ok raws ->
    samplerContract_callStatic_batchCall this [outer]
      (samplerOverrides_blockNumber this) = Ok (outerResult :: more) ->
    decodeFunctionResult_callResults (contractInterface (super this))
      "batchCall" (Some outerResult) = Ok raws ->
    let batch :=
      SamplerOperation_createBatch (super this) subOps resultHandler
        revertHandler in
    let composed := Sampler_executeBatchAsync this [batch] in
    let direct :=
      results <- Sampler_executeBatchAsync this subOps ;;
      combined <- lift Warn (resultHandler results) ;;
      ret [combined] in
    outcome composed = outcome direct /\
    warnings (trace composed) = warnings (trace direct).
Proof.
  intros T TResult this subOps resultHandler revertHandler subCalls log
    outer outerResult more raws Henc Hall Houter Hcall Hsub Hnest Hdec
    batch composed direct.
  set (decoded := lodash_map (fun op i =>
         handleCallResults op (nth_error raws i)) subOps).
  destruct (executeBatchAsync_all_calls this subOps subCalls log raws
              Henc Hall Hsub) as [Hdo Hdw]. fold decoded in Hdo, Hdw.
  assert (Hbatch_enc :
    lodash_map (fun o _ => encodeCall o) [batch] = (Ok [outer], log)).
  { unfold lodash_map. rewrite lodash_map_from_cons. cbn [lodash_map_from].
    subst batch. unfold SamplerOperation_createBatch. cbn [encodeCall].
    rewrite Henc. unfold pure. rewrite bind_Ok, Houter. cbn.
    rewrite !app_nil_r. reflexivity. }
  assert (Hbatch_some : existsb is_call [outer] = true)
    by (simpl; rewrite Hcall; reflexivity).
  assert (Hbatch_remote :
    samplerContract_callStatic_batchCall this (filter is_call [outer])
      (samplerOverrides_blockNumber this) = Ok (outerResult :: more))
    by (simpl; rewrite Hcall; exact Hnest).
  assert (Hrun := executeBatchAsync_remote_run this [batch] [outer]
              log (outerResult :: more) Hbatch_enc Hbatch_some Hbatch_remote).
  assert (Hslot : slot_of [outer] (outerResult :: more) 0 = Some outerResult)
    by (unfold slot_of; simpl; rewrite Hcall; reflexivity).
  assert (Hhandle :
    handleCallResults batch (Some outerResult) =
    (results <- decoded ;; resultHandler results))
    by (apply createBatch_handleCallResults; exact Hdec).
  unfold composed, direct. rewrite Hrun. clear Hrun.
  rewrite lodash_map_singleton, Hslot, Hhandle.
  destruct (Sampler_executeBatchAsync this subOps) as [oD tD].
  cbn [outcome trace fst snd] in Hdo, Hdw. subst oD. clearbody decoded.
  unfold outcome, trace.
  destruct decoded as [[results | e] trd]; cbn [fst snd] in *.
  - rewrite !bind_Ok. cbn [fst snd bind]. unfold outcome, trace, lift.
    destruct (resultHandler results) as [[v | e] trh]; cbn [fst snd bind ret].
    + split; [reflexivity |].
      rewrite !warnings_app, !warnings_map_Warn, Hdw, !app_nil_r.
      cbn [warnings flat_map app]. rewrite app_assoc. reflexivity.
    + split; [reflexivity |].
      rewrite !warnings_app, !warnings_map_Warn, Hdw.
      cbn [warnings flat_map app]. rewrite app_assoc. reflexivity.
  - cbn [bind fst snd]. split; [reflexivity |].
    rewrite !warnings_app, !warnings_map_Warn, Hdw.
    cbn [warnings flat_map app]. reflexivity.
Qed.

(** * Concrete runs *)

Open Scope Z_scope.


Lemma executeBatchAsync_splices_remote_results_witness :
  existsb is_call [Demo.sellCall; NULL_BYTES; Demo.sellCall] = true /\
  Sampler_executeBatchAsync Demo.sampler
    [operation Demo.sellOp; Demo.localEmpty; operation Demo.sellOp] =
  (Ok [[10; 19]; []; [10; 19]], [RemoteBatchCall [Demo.sellCall; Demo.sellCall] None]).
Proof.
  split; [reflexivity |].
  exact (proj1 (executeBatchAsync_splices_remote_results _ Demo.sampler
    [operation Demo.sellOp; Demo.localEmpty; operation Demo.sellOp]
    [Demo.sellCall; NULL_BYTES; Demo.sellCall] [] ["=0xa,0x13,"; "=0xa,0x13,"]%string
    eq_refl eq_refl eq_refl)).
Defined.

Lemma executeBatchAsync_all_sentinel_witness :
  (forall op, In op [Demo.localEmpty; Demo.localEmpty] ->
     outcome (encodeCall op) = Ok NULL_BYTES) /\
  Sampler_executeBatchAsync Demo.sampler [Demo.localEmpty; Demo.localEmpty] =
  (Ok [[]; []], []) /\
  remote_calls (trace (Sampler_executeBatchAsync Demo.sampler
                         [Demo.localEmpty; Demo.localEmpty])) = 0%nat.
Proof.
  assert (H : forall op, In op [Demo.localEmpty; Demo.localEmpty] ->
                outcome (encodeCall op) = Ok NULL_BYTES).
  { intros op [<- | [<- | []]]; reflexivity. }
  split; [exact H |].
  destruct (executeBatchAsync_all_sentinel_resolves_locally _ Demo.sampler
              [Demo.localEmpty; Demo.localEmpty] H) as [Hrun [Hzero _]].
  split; [exact Hrun | exact Hzero].
Defined.

Lemma expansion_rejects_unrecognized_protocol_witness :
  existsb (fun r => negb (recognized (route_protocol r))) Demo.mixedRoutes = true /\
  exists pre r post,
    Demo.mixedRoutes = pre ++ r :: post /\
    SamplerOperation_getSellQuoteOperations Demo.abi Demo.samplerOperation
      Demo.amounts Demo.mixedRoutes =
    (Throw (Error ("Unsupported sell sample protocol: "
                   ++ Protocol_toString (route_protocol r))%string), []).
Proof.
  split; [reflexivity |].
  destruct (expansion_rejects_unrecognized_protocol Demo.abi
              Demo.samplerOperation Demo.amounts Demo.mixedRoutes eq_refl)
    as [pre [r [post [Heq [_ [_ [Hsell _]]]]]]].
  exists pre, r, post. split; [exact Heq | exact Hsell].
Defined.

Lemma expansion_keeps_order_witness :
  forallb (fun r => recognized (route_protocol r)) Demo.routes = true /\
  map protocol
    (match outcome (SamplerOperation_getSellQuoteOperations Demo.abi
                      Demo.samplerOperation Demo.amounts Demo.routes) with
     | Ok ops => ops
     | Throw _ => []
     end) = [UniswapV2; SushiSwap].
Proof.
  split; [reflexivity |].
  destruct (expansion_keeps_order_and_classification Demo.abi
              Demo.samplerOperation Demo.amounts Demo.routes eq_refl)
    as [Hsell _].
  rewrite Hsell. reflexivity.
Defined.

(** C1 fails on the code.  The batch result unwraps to two slots; the
    first decodes to real quantities; the second carries revert data, on
    which the failure decoder of its operation returns the empty sequence.
    Decoding the batch does not return the real value next to the empty
    one: it throws. *)
Lemma createBatch_does_not_absorb_a_reverted_slot :
  decodeFunctionResult_callResults Demo.abi "batchCall"
    (Some "#=0xa,0x13,;!INSUFFICIENT_LIQUIDITY;"%string) =
    Ok ["=0xa,0x13,"; "!INSUFFICIENT_LIQUIDITY"]%string /\
  outcome (handleCallResults Demo.sellOp (Some "=0xa,0x13,"%string)) =
    Ok [10; 19] /\
  outcome (handleRevert Demo.buyOp (Some "!INSUFFICIENT_LIQUIDITY"%string)) =
    Ok [] /\
  outcome (handleCallResults Demo.sellBuyBatch
             (Some "#=0xa,0x13,;!INSUFFICIENT_LIQUIDITY;"%string)) =
    Throw (Error "call revert exception") /\
  outcome (handleCallResults Demo.sellBuyBatch
             (Some "#=0xa,0x13,;!INSUFFICIENT_LIQUIDITY;"%string)) <>
    Ok [[10; 19]; []].
Proof. repeat split. discriminate. Qed.

Lemma createBatch_decodes_every_slot_witness :
  decodeFunctionResult_callResults
    (contractInterface Demo.samplerOperation) "batchCall"
    (Some "#=0xa,0x13,;!INSUFFICIENT_LIQUIDITY;"%string) =
    Ok ["=0xa,0x13,"; "!INSUFFICIENT_LIQUIDITY"]%string /\
  exists e,
    outcome (handleCallResults Demo.sellBuyBatch
               (Some "#=0xa,0x13,;!INSUFFICIENT_LIQUIDITY;"%string)) =
    Throw e.
Proof.
  split; [reflexivity |].
  destruct (createBatch_decodes_every_slot_by_handleCallResults _ _
              Demo.samplerOperation
              [operation Demo.sellOp; operation Demo.buyOp]
              (fun results => ret results) (fun _ => ret [])
              (Some "#=0xa,0x13,;!INSUFFICIENT_LIQUIDITY;"%string)
              ["=0xa,0x13,"; "!INSUFFICIENT_LIQUIDITY"]%string eq_refl)
    as [_ [Hthrow _]].
  exact (Hthrow 1%nat (operation Demo.buyOp)
           (Error "call revert exception") eq_refl eq_refl).
Defined.

Lemma compose_then_execute_witness :
  forallb is_call [Demo.sellCall; Demo.sellCall] = true /\
  outcome (Sampler_executeBatchAsync Demo.sampler [Demo.quotesBatch]) =
  outcome (results <- Sampler_executeBatchAsync Demo.sampler Demo.quoteOps ;;
           combined <- lift Warn
             (ret (quotes_resultHandler Demo.amounts Demo.routes results)) ;;
           ret [combined]).
Proof.
  split; [reflexivity |].
  exact (proj1 (compose_then_execute_matches_direct_execution _ _
    Demo.sampler Demo.quoteOps
    (fun samples => ret (quotes_resultHandler Demo.amounts Demo.routes samples))
    (fun _ => ret [])
    [Demo.sellCall; Demo.sellCall] []
    ("batchCall([" ++ Demo.sellCall ++ "," ++ Demo.sellCall ++ ",],)")%string
    "#=0xa,0x13,;=0xa,0x13,;"%string []
    ["=0xa,0x13,"; "=0xa,0x13,"]%string
    eq_refl eq_refl eq_refl eq_refl eq_refl eq_refl eq_refl)).
Defined.

(** The example of the specification, with two routes: the sell quotes of
    [Demo.routes] for [Demo.amounts], executed on the demo node. *)
Example getSellQuotes_executed :
  (op <- SamplerOperation_getSellQuotes Demo.abi Demo.samplerOperation
           Demo.amounts Demo.routes ;;
   Sampler_executeAsync Demo.sampler [op]) =
  (Ok [[[ {| sample_protocol := UniswapV2; sample_input := Some 100;
             sample_output := 10 |};
          {| sample_protocol := UniswapV2; sample_input := Some 200;
             sample_output := 19 |} ];
        [ {| sample_protocol := SushiSwap; sample_input := Some 100;
             sample_output := 10 |};
          {| sample_protocol := SushiSwap; sample_input := Some 200;
             sample_output := 19 |} ]]],
   [RemoteBatchCall
      [("batchCall([" ++ Demo.sellCall ++ "," ++ Demo.sellCall ++ ",],)")%string]
      None]).
Proof. reflexivity. Qed.

Close Scope Z_scope.

(** * Further properties of the executor *)

Lemma lodash_map_from_first_Throw {E A B} (f : A -> nat -> Eff E B) l :
  forall start k x e,
  nth_error l k = Some x ->
  outcome (f x (start + k)) = Throw e ->
  (forall i y, i < k -> nth_error l i = Some y ->
     exists v, outcome (f y (start + i)) = Ok v) ->
  outcome (lodash_map_from f l start) = Throw e.
Proof.
  induction l as [| y ys IH]; intros start k x e Hk Hf Hbefore.
  - destruct k; discriminate.
  - rewrite lodash_map_from_cons, outcome_bind.
    destruct k as [| k]; simpl in Hk.
    + injection Hk as ->. rewrite Nat.add_0_r in Hf. rewrite Hf. reflexivity.
    + destruct (Hbefore 0 y ltac:(lia) eq_refl) as [v Hv].
      rewrite Nat.add_0_r in Hv. rewrite Hv, outcome_bind.
      rewrite <- Nat.add_succ_comm in Hf.
      rewrite (IH (S start) k x e Hk Hf); [reflexivity |].
      intros i z Hi Hz. rewrite Nat.add_succ_comm.
      apply (Hbefore (S i) z); [lia | exact Hz].
Qed.

Lemma executeBatchAsync_encode_throw {T} (this : Sampler)
    (ops : list (ContractOperation T)) e log :
  lodash_map (fun o _ => encodeCall o) ops = (Throw e, log) ->
  Sampler_executeBatchAsync this ops = (Throw e, map Warn log).
Proof.
  intros Henc. unfold Sampler_executeBatchAsync.
  rewrite encoded_lift, Henc. reflexivity.
Qed.

Lemma executeBatchAsync_local_run {T} (this : Sampler)
    (ops : list (ContractOperation T)) callDatas log :
  lodash_map (fun o _ => encodeCall o) ops = (Ok callDatas, log) ->
  existsb is_call callDatas = false ->
  Sampler_executeBatchAsync this ops =
  (outcome (lodash_map (fun op _ =>
     handleCallResults op (Some NULL_BYTES)) ops),
   map Warn log
   ++ map Warn (trace (lodash_map (fun op _ =>
        handleCallResults op (Some NULL_BYTES)) ops))).
Proof.
  intros Henc Hnone.
  rewrite (executeBatchAsync_encoded this ops callDatas log Henc).
  rewrite forallb_sentinel_no_call, Hnone. reflexivity.
Qed.

Lemma executeBatchAsync_remote_throw {T} (this : Sampler)
    (ops : list (ContractOperation T)) callDatas log e :
  lodash_map (fun o _ => encodeCall o) ops = (Ok callDatas, log) ->
  existsb is_call callDatas = true ->
  samplerContract_callStatic_batchCall this (filter is_call callDatas)
    (samplerOverrides_blockNumber this) = Throw e ->
  Sampler_executeBatchAsync this ops =
  (Throw e,
   map Warn log
   ++ [RemoteBatchCall (filter is_call callDatas)
         (samplerOverrides_blockNumber this)]).
Proof.
  intros Henc Hsome Hremote.
  rewrite (executeBatchAsync_encoded this ops callDatas log Henc).
  rewrite forallb_sentinel_no_call, Hsome. cbn [negb]. cbv zeta.
  rewrite callStatic_batchCall_run, Hremote. reflexivity.
Qed.

Lemma executeBatchAsync_Run {T} (this : Sampler)
    (ops : list (ContractOperation T)) :
  Run this ops (Sampler_executeBatchAsync this ops).
Proof.
  destruct (lodash_map (fun o _ => encodeCall o) ops)
    as [[callDatas | e] log] eqn:Henc.
  - destruct (existsb is_call callDatas) eqn:Hsome.
    + destruct (samplerContract_callStatic_batchCall this
                  (filter is_call callDatas)
                  (samplerOverrides_blockNumber this))
        as [raws | e] eqn:Hremote.
      * rewrite (executeBatchAsync_remote_run this ops _ _ _
                   Henc Hsome Hremote).
        exact (Run_remote this ops _ _ raws Henc Hsome).
      * rewrite (executeBatchAsync_remote_throw this ops _ _ _
                   Henc Hsome Hremote).
        exact (Run_remote_throw this ops _ _ e Henc Hsome).
    + rewrite (executeBatchAsync_local_run this ops _ _ Henc Hsome).
      exact (Run_local this ops _ _ Henc Hsome).
  - rewrite (executeBatchAsync_encode_throw this ops _ _ Henc).
    exact (Run_encode_throw this ops _ _ Henc).
Qed.

Lemma In_map_Warn_remote (log : list string) cds tag :
  ~ In (RemoteBatchCall cds tag) (map Warn log).
Proof.
  intros H. apply in_map_iff in H. destruct H as [m [Hm _]]. discriminate.
Qed.

Lemma exists_call_filter (cds : list Payload) :
  existsb is_call cds = true -> filter is_call cds <> [].
Proof.
  induction cds as [| cd cds IH]; [discriminate |].
  simpl. destruct (is_call cd); [discriminate | exact IH].
Qed.

Lemma filter_is_call_not_sentinel (cds : list Payload) :
  Forall (fun cd => cd <> NULL_BYTES) (filter is_call cds).
Proof.
  apply Forall_forall. intros cd Hcd. apply filter_In in Hcd.
  destruct Hcd as [_ Hcall]. unfold is_call in Hcall.
  intros ->. rewrite String.eqb_refl in Hcall. discriminate.
Qed.

(** X1.  Whatever the operations do, a run that returns has one result per
    operation. *)
Theorem executeBatchAsync_length :
  forall (T : Type) (this : Sampler) (ops : list (ContractOperation T))
         (results : list T),
    outcome (Sampler_executeBatchAsync this ops) = Ok results ->
    length results = length ops.
Proof.
  intros T this ops results H.
  destruct (executeBatchAsync_Run this ops); cbn [outcome fst] in H;
    try discriminate; exact (lodash_map_Ok_length _ _ _ H).
Qed.

(** X2.  A run makes at most one remote invocation, whatever the
    operations and the node do. *)
Theorem executeBatchAsync_at_most_one_remote_call :
  forall (T : Type) (this : Sampler) (ops : list (ContractOperation T)),
    remote_calls (trace (Sampler_executeBatchAsync this ops)) <= 1.
Proof.
  intros T this ops.
  destruct (executeBatchAsync_Run this ops); cbn [trace snd];
    rewrite ?remote_calls_app, ?remote_calls_map_Warn;
    unfold remote_calls; simpl; lia.
Qed.

(** X3.  What is sent is never empty, never holds the sentinel, and goes to the
    block of the overrides. *)
Theorem executeBatchAsync_never_sends_sentinel :
  forall (T : Type) (this : Sampler) (ops : list (ContractOperation T))
         (callDatas : list Payload) (blockTag : option N),
    In (RemoteBatchCall callDatas blockTag)
       (trace (Sampler_executeBatchAsync this ops)) ->
    callDatas <> [] /\
    Forall (fun cd => cd <> NULL_BYTES) callDatas /\
    blockTag = samplerOverrides_blockNumber this.
Proof.
  intros T this ops cds tag Hin.
  destruct (executeBatchAsync_Run this ops) as
    [e log Henc | cds' log Henc Hnone | cds' log e Henc Hsome
     | cds' log raws Henc Hsome]; cbn [trace snd] in Hin.
  - now apply In_map_Warn_remote in Hin.
  - apply in_app_or in Hin. destruct Hin as [Hin | Hin];
      now apply In_map_Warn_remote in Hin.
  - apply in_app_or in Hin. destruct Hin as [Hin | [Hin | []]];
      [now apply In_map_Warn_remote in Hin |].
    injection Hin as <- <-.
    repeat split;
      [now apply exists_call_filter | apply filter_is_call_not_sentinel].
  - apply in_app_or in Hin. destruct Hin as [Hin | [Hin | Hin]];
      [now apply In_map_Warn_remote in Hin | |
       now apply In_map_Warn_remote in Hin].
    injection Hin as <- <-.
    repeat split;
      [now apply exists_call_filter | apply filter_is_call_not_sentinel].
Qed.

(** ** Failures of a run *)

(** X4.  The first operation whose [encodeCall] throws ends the run with its
    error, before anything is sent and before any decoder runs. *)
Theorem executeBatchAsync_encode_failure :
  forall (T : Type) (this : Sampler) (ops : list (ContractOperation T))
         (k : nat) (op : ContractOperation T) (e : JsError),
    nth_error ops k = Some op ->
    outcome (encodeCall op) = Throw e ->
    (forall i op', i < k -> nth_error ops i = Some op' ->
       exists callData, outcome (encodeCall op') = Ok callData) ->
    outcome (Sampler_executeBatchAsync this ops) = Throw e /\
    remote_calls (trace (Sampler_executeBatchAsync this ops)) = 0 /\
    trace (Sampler_executeBatchAsync this ops) =
      map Warn (trace (lodash_map (fun o _ => encodeCall o) ops)).
Proof.
  intros T this ops k op e Hk He Hbefore.
  assert (Henc : outcome (lodash_map (fun o _ => encodeCall o) ops) = Throw e)
    by exact (lodash_map_from_first_Throw (fun o _ => encodeCall o) ops 0 k
                op e Hk He Hbefore).
  rewrite (executeBatchAsync_encode_throw this ops e
             (trace (lodash_map (fun o _ => encodeCall o) ops)))
    by (rewrite <- Henc; apply eff_eta).
  repeat split. apply remote_calls_map_Warn.
Qed.

(** X5.  A remote call that throws ends the run with its error: the call is
    in the trace, and no decoder has run. *)
Theorem executeBatchAsync_remote_failure :
  forall (T : Type) (this : Sampler) (ops : list (ContractOperation T))
         (callDatas : list Payload) (log : list string) (e : JsError),
    lodash_map (fun o _ => encodeCall o) ops = (Ok callDatas, log) ->
    existsb is_call callDatas = true ->
    samplerContract_callStatic_batchCall this (filter is_call callDatas)
      (samplerOverrides_blockNumber this) = Throw e ->
    outcome (Sampler_executeBatchAsync this ops) = Throw e /\
    remote_calls (trace (Sampler_executeBatchAsync this ops)) = 1 /\
    warnings (trace (Sampler_executeBatchAsync this ops)) = log.
Proof.
  intros T this ops callDatas log e Henc Hsome Hremote.
  rewrite (executeBatchAsync_remote_throw this ops _ _ _ Henc Hsome Hremote).
  cbn [outcome trace fst snd]. repeat split.
  - rewrite remote_calls_app, remote_calls_map_Warn. reflexivity.
  - rewrite warnings_app, warnings_map_Warn. apply app_nil_r.
Qed.

(** X6.  After the remote call, the first operation whose decoder throws on
    its slot ends the run with its error. *)
Theorem executeBatchAsync_decode_failure :
  forall (T : Type) (this : Sampler) (ops : list (ContractOperation T))
         (callDatas : list Payload) (log : list string)
         (rawCallResults : list Payload)
         (k : nat) (op : ContractOperation T) (e : JsError),
    lodash_map (fun o _ => encodeCall o) ops = (Ok callDatas, log) ->
    existsb is_call callDatas = true ->
    samplerContract_callStatic_batchCall this (filter is_call callDatas)
      (samplerOverrides_blockNumber this) = Ok rawCallResults ->
    nth_error ops k = Some op ->
    outcome (handleCallResults op (slot_of callDatas rawCallResults k)) =
      Throw e ->
    (forall i op', i < k -> nth_error ops i = Some op' ->
       exists r,
         outcome (handleCallResults op' (slot_of callDatas rawCallResults i))
         = Ok r) ->
    outcome (Sampler_executeBatchAsync this ops) = Throw e /\
    remote_calls (trace (Sampler_executeBatchAsync this ops)) = 1.
Proof.
  intros T this ops callDatas log raws k op e Henc Hsome Hremote Hk He
    Hbefore.
  rewrite (executeBatchAsync_remote_run this ops _ _ _ Henc Hsome Hremote).
  cbn [outcome trace fst snd]. split.
  - exact (lodash_map_from_first_Throw
             (fun op i => handleCallResults op (slot_of callDatas raws i))
             ops 0 k op e Hk He Hbefore).
  - rewrite !remote_calls_app, !remote_calls_map_Warn. reflexivity.
Qed.

(** ** Remote results that do not match what was sent *)

Lemma calls_before_lt (cds : list Payload) i cd :
  nth_error cds i = Some cd ->
  is_call cd = true ->
  length (filter is_call (firstn i cds)) < length (filter is_call cds).
Proof.
  intros Hi Hcall.
  destruct (nth_error_split cds i Hi) as [pre [post [-> <-]]].
  rewrite firstn_app, Nat.sub_diag, firstn_all. simpl firstn.
  rewrite app_nil_r, filter_app, length_app. simpl. rewrite Hcall.
  simpl. lia.
Qed.

Lemma slot_of_surplus (cds raws extra : list Payload) i :
  length (filter is_call cds) <= length raws ->
  slot_of cds (raws ++ extra) i = slot_of cds raws i.
Proof.
  intros Hlen. unfold slot_of.
  destruct (nth_error cds i) as [cd |] eqn:Hi; [| reflexivity].
  destruct (is_call cd) eqn:Hcall; [| reflexivity].
  pose proof (calls_before_lt cds i cd Hi Hcall).
  apply nth_error_app1. lia.
Qed.

Lemma slot_of_short (cds raws : list Payload) i cd :
  nth_error cds i = Some cd ->
  is_call cd = true ->
  length raws <= length (filter is_call (firstn i cds)) ->
  slot_of cds raws i = None.
Proof.
  intros Hi Hcall Hshort. unfold slot_of. rewrite Hi, Hcall.
  apply nth_error_None. exact Hshort.
Qed.

(** X7.  Results the node returns beyond the payloads it was sent are
    ignored: two nodes whose answers agree on the slots that were asked
    for give the same run. *)
Theorem executeBatchAsync_ignores_surplus_results :
  forall (T : Type) (this this' : Sampler) (ops : list (ContractOperation T))
         (callDatas : list Payload) (log : list string)
         (rawCallResults extra : list Payload),
    lodash_map (fun o _ => encodeCall o) ops = (Ok callDatas, log) ->
    existsb is_call callDatas = true ->
    samplerOverrides_blockNumber this' = samplerOverrides_blockNumber this ->
    samplerContract_callStatic_batchCall this (filter is_call callDatas)
      (samplerOverrides_blockNumber this) = Ok rawCallResults ->
    samplerContract_callStatic_batchCall this' (filter is_call callDatas)
      (samplerOverrides_blockNumber this) = Ok (rawCallResults ++ extra) ->
    length (filter is_call callDatas) <= length rawCallResults ->
    Sampler_executeBatchAsync this' ops = Sampler_executeBatchAsync this ops.
Proof.
  intros T this this' ops callDatas log raws extra Henc Hsome Htag Hremote
    Hremote' Hlen.
  rewrite <- Htag in Hremote'.
  rewrite (executeBatchAsync_remote_run this ops _ _ _ Henc Hsome Hremote).
  rewrite (executeBatchAsync_remote_run this' ops _ _ _ Henc Hsome Hremote').
  rewrite Htag.
  assert (Hsame :
    lodash_map (fun op i =>
      handleCallResults op (slot_of callDatas (raws ++ extra) i)) ops =
    lodash_map (fun op i =>
      handleCallResults op (slot_of callDatas raws i)) ops).
  { apply lodash_map_from_ext. intros i op _. simpl.
    rewrite slot_of_surplus by exact Hlen. reflexivity. }
  rewrite Hsame. reflexivity.
Qed.

(** X8.  A node that returns fewer results than it was sent is not detected:
    an operation whose result is missing decodes [undefined]. *)
Theorem executeBatchAsync_short_result_decodes_undefined :
  forall (T : Type) (this : Sampler) (ops : list (ContractOperation T))
         (callDatas : list Payload) (log : list string)
         (rawCallResults : list Payload) (results : list T)
         (i : nat) (op : ContractOperation T) (callData : Payload),
    lodash_map (fun o _ => encodeCall o) ops = (Ok callDatas, log) ->
    existsb is_call callDatas = true ->
    samplerContract_callStatic_batchCall this (filter is_call callDatas)
      (samplerOverrides_blockNumber this) = Ok rawCallResults ->
    outcome (Sampler_executeBatchAsync this ops) = Ok results ->
    nth_error ops i = Some op ->
    nth_error callDatas i = Some callData ->
    is_call callData = true ->
    length rawCallResults <= length (filter is_call (firstn i callDatas)) ->
    exists r,
      nth_error results i = Some r /\
      outcome (handleCallResults op None) = Ok r.
Proof.
  intros T this ops callDatas log raws results i op cd Henc Hsome Hremote
    Hres Hi Hcd Hcall Hshort.
  rewrite (executeBatchAsync_remote_run this ops _ _ _ Henc Hsome Hremote)
    in Hres.
  cbn [outcome fst] in Hres.
  destruct (lodash_map_from_Ok _ _ _ _ Hres) as [_ Hnth].
  destruct (Hnth i op Hi) as [r [Hr Hdec]].
  exists r. split; [exact Hr |].
  simpl in Hdec. rewrite (slot_of_short _ _ _ _ Hcd Hcall Hshort) in Hdec.
  exact Hdec.
Qed.

(** ** An operation that is resolved locally *)

Lemma lodash_map_from_shift {E A B} (f' f : A -> nat -> Eff E B) l :
  forall s' s,
  (forall i x, nth_error l i = Some x -> f' x (s' + i) = f x (s + i)) ->
  lodash_map_from f' l s' = lodash_map_from f l s.
Proof.
  induction l as [| x xs IH]; intros s' s H; [reflexivity |].
  rewrite !lodash_map_from_cons.
  pose proof (H 0 x eq_refl) as H0. rewrite !Nat.add_0_r in H0.
  rewrite H0, (IH (S s') (S s)); [reflexivity |].
  intros i y Hi. rewrite !Nat.add_succ_comm. apply (H (S i)). exact Hi.
Qed.

Lemma insert_at_cons {A} n (v x : A) l :
  insert_at (S n) v (x :: l) = x :: insert_at n v l.
Proof. reflexivity. Qed.

(** A walk over a list with one more element, whose callback returns
    [b0] on it without a trace and agrees with [f] elsewhere. *)
Lemma lodash_map_from_insert {E A B} (f' f : A -> nat -> Eff E B)
    (x0 : A) (b0 : B) (l2 : list A) :
  forall (l1 : list A) (s : nat),
  (forall i x, nth_error l1 i = Some x -> f' x (s + i) = f x (s + i)) ->
  f' x0 (s + length l1) = (Ok b0, []) ->
  (forall i x, nth_error l2 i = Some x ->
     f' x (s + length l1 + 1 + i) = f x (s + length l1 + i)) ->
  lodash_map_from f' (l1 ++ x0 :: l2) s =
  (Outcome_map (insert_at (length l1) b0)
     (outcome (lodash_map_from f (l1 ++ l2) s)),
   trace (lodash_map_from f (l1 ++ l2) s)).
Proof.
  induction l1 as [| x l1 IH]; intros s H1 H0 H2.
  - simpl app. simpl length in *. rewrite Nat.add_0_r in *.
    rewrite lodash_map_from_cons, H0, bind_Ok. cbn [app].
    rewrite (lodash_map_from_shift f' f l2 (S s) s).
    + destruct (lodash_map_from f l2 s) as [[ys | e] tr]; simpl;
        rewrite ?app_nil_r; reflexivity.
    + intros i y Hi. specialize (H2 i y Hi).
      replace (S s + i) with (s + 1 + i) by lia. exact H2.
  - simpl app. rewrite !lodash_map_from_cons.
    pose proof (H1 0 x eq_refl) as Hx. rewrite Nat.add_0_r in Hx.
    rewrite Hx. rewrite (IH (S s)).
    + destruct (f x s) as [[y | e] tr]; [| reflexivity].
      destruct (lodash_map_from f (l1 ++ l2) (S s)) as [[ys | e] tr'];
        simpl; rewrite ?app_nil_r; reflexivity.
    + intros i y Hi. rewrite Nat.add_succ_comm. apply (H1 (S i)). exact Hi.
    + simpl length in H0. rewrite <- H0. f_equal. lia.
    + intros i y Hi. specialize (H2 i y Hi). simpl length in H2.
      replace (S s + length l1 + 1 + i) with (s + S (length l1) + 1 + i)
        by lia.
      replace (S s + length l1 + i) with (s + S (length l1) + i) by lia.
      exact H2.
Qed.

Lemma slot_of_before_insert (cpre cpost raws : list Payload) cd i :
  i < length cpre ->
  slot_of (cpre ++ cd :: cpost) raws i = slot_of (cpre ++ cpost) raws i.
Proof.
  intros Hi. unfold slot_of.
  rewrite !nth_error_app1 by exact Hi.
  rewrite !firstn_app.
  replace (i - length cpre) with 0 by lia. reflexivity.
Qed.

Lemma slot_of_after_sentinel (cpre cpost raws : list Payload) j :
  slot_of (cpre ++ NULL_BYTES :: cpost) raws (length cpre + 1 + j) =
  slot_of (cpre ++ cpost) raws (length cpre + j).
Proof.
  assert (Hnth : nth_error (cpre ++ NULL_BYTES :: cpost) (length cpre + 1 + j)
                 = nth_error (cpre ++ cpost) (length cpre + j)).
  { rewrite !nth_error_app2 by lia.
    replace (length cpre + 1 + j - length cpre) with (S j) by lia.
    replace (length cpre + j - length cpre) with j by lia. reflexivity. }
  assert (Hcount :
    filter is_call (firstn (length cpre + 1 + j) (cpre ++ NULL_BYTES :: cpost))
    = filter is_call (firstn (length cpre + j) (cpre ++ cpost))).
  { rewrite !firstn_app.
    replace (length cpre + 1 + j - length cpre) with (S j) by lia.
    replace (length cpre + j - length cpre) with j by lia.
    rewrite (firstn_all2 (n := length cpre + 1 + j) cpre) by lia.
    rewrite (firstn_all2 (n := length cpre + j) cpre) by lia.
    rewrite !filter_app. reflexivity. }
  unfold slot_of. rewrite Hnth, Hcount. reflexivity.
Qed.

Lemma insert_at_split {A} (l : list A) n v :
  insert_at n v l = firstn n l ++ v :: skipn n l.
Proof. reflexivity. Qed.

Lemma existsb_insert_sentinel (cds : list Payload) n :
  existsb is_call (insert_at n NULL_BYTES cds) = existsb is_call cds.
Proof.
  unfold insert_at. rewrite existsb_app. simpl.
  rewrite <- existsb_app, firstn_skipn. reflexivity.
Qed.

Lemma filter_insert_sentinel (cds : list Payload) n :
  filter is_call (insert_at n NULL_BYTES cds) = filter is_call cds.
Proof.
  unfold insert_at. rewrite filter_app. simpl.
  rewrite <- filter_app, firstn_skipn. reflexivity.
Qed.

(** X9.  Putting an operation that encodes to the sentinel anywhere in the
    list changes nothing for the other operations: the same payloads are
    sent, the others decode the same bytes, and the run returns the same
    results with the local result put in at the index of the operation. *)
Theorem executeBatchAsync_local_operation_is_transparent :
  forall (T : Type) (this : Sampler)
         (before after : list (ContractOperation T))
         (op : ContractOperation T) (v : T),
    encodeCall op = (Ok NULL_BYTES, []) ->
    handleCallResults op (Some NULL_BYTES) = (Ok v, []) ->
    Sampler_executeBatchAsync this (before ++ op :: after) =
    (Outcome_map (insert_at (length before) v)
       (outcome (Sampler_executeBatchAsync this (before ++ after))),
     trace (Sampler_executeBatchAsync this (before ++ after))).
Proof.
  intros T this pre post op v Henc0 Hdec0.
  set (n := length pre).
  assert (Henc' :
    lodash_map (fun o _ => encodeCall o) (pre ++ op :: post) =
    (Outcome_map (insert_at n NULL_BYTES)
       (outcome (lodash_map (fun o _ => encodeCall o) (pre ++ post))),
     trace (lodash_map (fun o _ => encodeCall o) (pre ++ post)))).
  { apply (lodash_map_from_insert (fun o _ => encodeCall o)
             (fun o _ => encodeCall o) op NULL_BYTES post pre 0);
      [reflexivity | exact Henc0 | reflexivity]. }
  destruct (lodash_map (fun o _ => encodeCall o) (pre ++ post))
    as [[cds | e] log] eqn:Henc; cbn [outcome trace fst snd Outcome_map]
    in Henc'.
  2:{ rewrite (executeBatchAsync_encode_throw this _ _ _ Henc).
      rewrite (executeBatchAsync_encode_throw this _ _ _ Henc').
      reflexivity. }
  assert (Hlen : length cds = length (pre ++ post)).
  { apply (lodash_map_Ok_length (fun o _ => encodeCall o)).
    rewrite Henc. reflexivity. }
  rewrite length_app in Hlen. fold n in Hlen.
  assert (Hpre : length (firstn n cds) = n) by (rewrite length_firstn; lia).
  assert (Hins : insert_at n NULL_BYTES cds =
                 firstn n cds ++ NULL_BYTES :: skipn n cds) by reflexivity.
  assert (Hcds : cds = firstn n cds ++ skipn n cds)
    by (symmetry; apply firstn_skipn).
  revert Hpre Hins Hcds.
  generalize (firstn n cds) as cpre, (skipn n cds) as cpost.
  intros cpre cpost Hpre Hins Hcds.
  destruct (existsb is_call cds) eqn:Hsome.
  - (* something is sent *)
    assert (Hsome' : existsb is_call (insert_at n NULL_BYTES cds) = true)
      by (rewrite existsb_insert_sentinel; exact Hsome).
    destruct (samplerContract_callStatic_batchCall this
                (filter is_call cds) (samplerOverrides_blockNumber this))
      as [raws | e] eqn:Hremote.
    + assert (Hremote' := Hremote).
      rewrite <- (filter_insert_sentinel cds n) in Hremote'.
      rewrite (executeBatchAsync_remote_run this _ _ _ _
                 Henc Hsome Hremote).
      rewrite (executeBatchAsync_remote_run this _ _ _ _
                 Henc' Hsome' Hremote').
      rewrite filter_insert_sentinel. cbn [outcome trace fst snd].
      assert (Hwalk :
        lodash_map (fun o i => handleCallResults o
          (slot_of (insert_at n NULL_BYTES cds) raws i)) (pre ++ op :: post) =
        (Outcome_map (insert_at n v)
           (outcome (lodash_map (fun o i => handleCallResults o
              (slot_of cds raws i)) (pre ++ post))),
         trace (lodash_map (fun o i => handleCallResults o
              (slot_of cds raws i)) (pre ++ post)))).
      { rewrite Hins, Hcds.
        apply (lodash_map_from_insert
                 (fun o i => handleCallResults o
                    (slot_of (cpre ++ NULL_BYTES :: cpost) raws i))
                 (fun o i => handleCallResults o
                    (slot_of (cpre ++ cpost) raws i))
                 op v post pre 0).
        - intros i x Hi. simpl. rewrite slot_of_before_insert; [reflexivity |].
          rewrite Hpre. apply nth_error_Some. rewrite Hi. discriminate.
        - rewrite (slot_of_middle cpre NULL_BYTES cpost raws (0 + length pre))
            by (simpl; symmetry; exact Hpre).
          exact Hdec0.
        - intros i x Hi.
          replace (0 + length pre + 1 + i) with (length cpre + 1 + i)
            by (rewrite Hpre; reflexivity).
          replace (0 + length pre + i) with (length cpre + i)
            by (rewrite Hpre; reflexivity).
          rewrite slot_of_after_sentinel. reflexivity. }
      rewrite Hwalk. reflexivity.
    + assert (Hremote' := Hremote).
      rewrite <- (filter_insert_sentinel cds n) in Hremote'.
      rewrite (executeBatchAsync_remote_throw this _ _ _ _
                 Henc Hsome Hremote).
      rewrite (executeBatchAsync_remote_throw this _ _ _ _
                 Henc' Hsome' Hremote').
      rewrite filter_insert_sentinel. reflexivity.
  - (* nothing is sent *)
    assert (Hnone' : existsb is_call (insert_at n NULL_BYTES cds) = false)
      by (rewrite existsb_insert_sentinel; exact Hsome).
    rewrite (executeBatchAsync_local_run this _ _ _ Henc Hsome).
    rewrite (executeBatchAsync_local_run this _ _ _ Henc' Hnone').
    cbn [outcome trace fst snd].
    assert (Hwalk :
      lodash_map (fun o _ => handleCallResults o (Some NULL_BYTES))
        (pre ++ op :: post) =
      (Outcome_map (insert_at n v)
         (outcome (lodash_map (fun o _ =>
            handleCallResults o (Some NULL_BYTES)) (pre ++ post))),
       trace (lodash_map (fun o _ =>
            handleCallResults o (Some NULL_BYTES)) (pre ++ post)))).
    { apply (lodash_map_from_insert
               (fun o _ => handleCallResults o (Some NULL_BYTES))
               (fun o _ => handleCallResults o (Some NULL_BYTES))
               op v post pre 0);
        [reflexivity | exact Hdec0 | reflexivity]. }
    rewrite Hwalk. reflexivity.
Qed.

(** * Further properties of batches *)

Lemma createBatch_encodeCall {T TResult} (this : SamplerOperation)
    (subOps : list (ContractOperation TResult))
    (resultHandler : list TResult -> Logged T)
    (revertHandler : CallResult -> Logged T) subCalls log :
  lodash_map (fun o _ => encodeCall o) subOps = (Ok subCalls, log) ->
  encodeCall (SamplerOperation_createBatch this subOps resultHandler
                revertHandler) =
  (encodeFunctionData (contractInterface this) "batchCall"
     (Some [AbiArray (map AbiString subCalls)]), log).
Proof.
  intros Henc. unfold SamplerOperation_createBatch. cbn [encodeCall].
  rewrite Henc. unfold pure. rewrite bind_Ok. cbn. rewrite app_nil_r.
  reflexivity.
Qed.

(** X10.  The first sub-operation whose [encodeCall] throws makes [encodeCall]
    of the batch throw its error, and executing the batch then sends
    nothing. *)
Theorem createBatch_encode_failure :
  forall (T TResult : Type) (this : SamplerOperation) (sampler : Sampler)
         (subOps : list (ContractOperation TResult))
         (resultHandler : list TResult -> Logged T)
         (revertHandler : CallResult -> Logged T)
         (k : nat) (op : ContractOperation TResult) (e : JsError),
    nth_error subOps k = Some op ->
    outcome (encodeCall op) = Throw e ->
    (forall i op', i < k -> nth_error subOps i = Some op' ->
       exists callData, outcome (encodeCall op') = Ok callData) ->
    let batch :=
      SamplerOperation_createBatch this subOps resultHandler revertHandler in
    outcome (encodeCall batch) = Throw e /\
    outcome (Sampler_executeBatchAsync sampler [batch]) = Throw e /\
    remote_calls (trace (Sampler_executeBatchAsync sampler [batch])) = 0.
Proof.
  intros T TResult this sampler subOps resultHandler revertHandler k op e
    Hk He Hbefore batch.
  assert (Hsub :
    outcome (lodash_map (fun o _ => encodeCall o) subOps) = Throw e)
    by exact (lodash_map_from_first_Throw (fun o _ => encodeCall o) subOps 0
                k op e Hk He Hbefore).
  assert (Hbatch : outcome (encodeCall batch) = Throw e).
  { subst batch. unfold SamplerOperation_createBatch. cbn [encodeCall].
    rewrite outcome_bind, Hsub. reflexivity. }
  assert (Henc :
    outcome (lodash_map (fun o _ => encodeCall o) [batch]) = Throw e).
  { rewrite lodash_map_singleton, outcome_bind, Hbatch. reflexivity. }
  rewrite (executeBatchAsync_encode_throw sampler [batch] e
             (trace (lodash_map (fun o _ => encodeCall o) [batch])))
    by (rewrite <- Henc; apply eff_eta).
  repeat split; [exact Hbatch | apply remote_calls_map_Warn].
Qed.

(** X12.  When the coder cannot unwrap the result of a batch, decoding throws
    the coder's error; no sub-operation decodes and nothing is logged. *)
Theorem createBatch_unwrap_failure :
  forall (T TResult : Type) (this : SamplerOperation)
         (subOps : list (ContractOperation TResult))
         (resultHandler : list TResult -> Logged T)
         (revertHandler : CallResult -> Logged T)
         (callResults : CallResult) (e : JsError),
    decodeFunctionResult_callResults (contractInterface this) "batchCall"
      callResults = Throw e ->
    handleCallResults
      (SamplerOperation_createBatch this subOps resultHandler revertHandler)
      callResults = (Throw e, []).
Proof.
  intros T TResult this subOps resultHandler revertHandler callResults e
    Hdec.
  unfold SamplerOperation_createBatch. cbn [handleCallResults].
  rewrite Hdec. reflexivity.
Qed.

(** X13.  Slots beyond the sub-operations are ignored when a batch result is
    decoded. *)
Theorem createBatch_ignores_surplus_slots :
  forall (T TResult : Type) (this : SamplerOperation)
         (subOps : list (ContractOperation TResult))
         (resultHandler : list TResult -> Logged T)
         (revertHandler : CallResult -> Logged T)
         (callResults callResults' : CallResult)
         (slots extra : list Payload),
    decodeFunctionResult_callResults (contractInterface this) "batchCall"
      callResults = Ok slots ->
    decodeFunctionResult_callResults (contractInterface this) "batchCall"
      callResults' = Ok (slots ++ extra) ->
    length subOps <= length slots ->
    let batch :=
      SamplerOperation_createBatch this subOps resultHandler revertHandler in
    handleCallResults batch callResults' = handleCallResults batch callResults.
Proof.
  intros T TResult this subOps resultHandler revertHandler callResults
    callResults' slots extra Hdec Hdec' Hlen batch. subst batch.
  rewrite (createBatch_handleCallResults _ _ _ _ _ _ Hdec).
  rewrite (createBatch_handleCallResults _ _ _ _ _ _ Hdec').
  f_equal. apply lodash_map_from_ext. intros i op Hi. simpl.
  rewrite nth_error_app1; [reflexivity |].
  assert (i < length subOps) by (apply nth_error_Some; rewrite Hi; discriminate).
  lia.
Qed.

(** * Further properties of the quotes *)

Lemma lodash_map_from_all_silent {E A B} (f : A -> nat -> Eff E B) l :
  forall start results,
  length results = length l ->
  (forall i x, nth_error l i = Some x ->
     exists r, nth_error results i = Some r /\ f x (start + i) = (Ok r, [])) ->
  lodash_map_from f l start = (Ok results, []).
Proof.
  induction l as [| x xs IH]; intros start results Hlen H.
  - destruct results; [reflexivity | discriminate].
  - destruct results as [| y ys]; [discriminate |].
    rewrite lodash_map_from_cons.
    destruct (H 0 x eq_refl) as [r [Hr Hf]]. simpl in Hr. injection Hr as <-.
    rewrite Nat.add_0_r in Hf. rewrite Hf.
    rewrite (IH (S start) ys); [reflexivity | simpl in Hlen; lia |].
    intros i z Hz. destruct (H (S i) z Hz) as [r [Hr Hg]].
    exists r. rewrite Nat.add_succ_comm. now split.
Qed.

Section Quotes.

Variable createInterface : Interface.
Variable this : SamplerOperation.
Variable amounts : list BigNumber.

(** The operation a quotes method returns for recognized routes. *)
Lemma getSellQuotes_recognized routes :
  forallb (fun r => recognized (route_protocol r)) routes = true ->
  SamplerOperation_getSellQuotes createInterface this amounts routes =
  (Ok (SamplerOperation_createBatch this
         (map operation
            (map (fun r => SamplerOperation_getUniswapV2SellQuotes
                             createInterface this (route_path r) amounts
                             (Some (route_protocol r))) routes))
         (fun samples => ret (quotes_resultHandler amounts routes samples))
         (fun _ => ret [])), []).
Proof.
  intros Hall. unfold SamplerOperation_getSellQuotes.
  rewrite getSellQuoteOperations_walk. unfold lodash_map.
  rewrite expand_recognized by exact Hall. reflexivity.
Qed.

Lemma getBuyQuotes_recognized routes :
  forallb (fun r => recognized (route_protocol r)) routes = true ->
  SamplerOperation_getBuyQuotes createInterface this amounts routes =
  (Ok (SamplerOperation_createBatch this
         (map operation
            (map (fun r => SamplerOperation_getUniswapV2BuyQuotes
                             createInterface this (route_path r) amounts
                             (Some (route_protocol r))) routes))
         (fun samples => ret (quotes_resultHandler amounts routes samples))
         (fun _ => ret [])), []).
Proof.
  intros Hall. unfold SamplerOperation_getBuyQuotes.
  rewrite getBuyQuoteOperations_walk. unfold lodash_map.
  rewrite expand_recognized by exact Hall. reflexivity.
Qed.

(** Decoding the slots with sub-operations that all use [functionName]. *)
Lemma quote_slots_decoded (make : list string -> list BigNumber ->
                                  option Protocol -> SourceContractOperation)
    functionName fragment routes slots samples :
  (forall path p raw,
     handleCallResults (make path amounts (Some p)) raw =
     (fragment <- pure (getFunction createInterface functionName) ;;
      pure (decodeFunctionResult_0 createInterface fragment raw))) ->
  getFunction createInterface functionName = Ok fragment ->
  length samples = length routes ->
  (forall i row, nth_error samples i = Some row ->
     decodeFunctionResult_0 createInterface fragment (nth_error slots i)
     = Ok row) ->
  lodash_map (fun op i => handleCallResults op (nth_error slots i))
    (map operation
       (map (fun r => make (route_path r) amounts (Some (route_protocol r)))
          routes)) =
  (Ok samples, []).
Proof.
  intros Hmake Hfrag Hlen Hrows.
  apply lodash_map_from_all_silent; [now rewrite !length_map |].
  intros i op Hi. rewrite nth_error_map, nth_error_map in Hi.
  destruct (nth_error routes i) as [r |] eqn:Hr; [| discriminate].
  simpl in Hi. injection Hi as <-.
  destruct (nth_error samples i) as [row |] eqn:Hrow.
  - exists row. split; [reflexivity |].
    simpl. rewrite Hmake, Hfrag. unfold pure. rewrite bind_Ok.
    rewrite (Hrows i row Hrow). reflexivity.
  - apply nth_error_None in Hrow.
    assert (i < length routes) by (apply nth_error_Some; rewrite Hr; discriminate).
    lia.
Qed.

End Quotes.

(** X14.  For recognized routes, when the batch result unwraps to slots and
    the coder decodes slot [i] to the quantities [samples[i]], the
    operation of [getSellQuotes] decodes the batch result to the samples
    of [quotes_resultHandler], and logs nothing; its failure decoder
    returns the empty list.  The same holds for [getBuyQuotes] with the
    buy function. *)
Theorem quotes_operation_decodes_batch_result :
  forall (createInterface : Interface) (this : SamplerOperation)
         (amounts : list BigNumber) (routes : list SamplerRoute)
         (callResults : CallResult) (slots : list Payload)
         (samples : list (list BigNumber)),
    forallb (fun r => recognized (route_protocol r)) routes = true ->
    decodeFunctionResult_callResults (contractInterface this) "batchCall"
      callResults = Ok slots ->
    length samples = length routes ->
    (forall fragment,
       getFunction createInterface "sampleSellsFromUniswapV2" = Ok fragment ->
       (forall i row, nth_error samples i = Some row ->
          decodeFunctionResult_0 createInterface fragment (nth_error slots i)
          = Ok row) ->
       exists op,
         SamplerOperation_getSellQuotes createInterface this amounts routes
           = (Ok op, []) /\
         handleCallResults op callResults =
           (Ok (quotes_resultHandler amounts routes samples), []) /\
         handleRevert op callResults = (Ok [], [])) /\
    (forall fragment,
       getFunction createInterface "sampleBuysFromUniswapV2" = Ok fragment ->
       (forall i row, nth_error samples i = Some row ->
          decodeFunctionResult_0 createInterface fragment (nth_error slots i)
          = Ok row) ->
       exists op,
         SamplerOperation_getBuyQuotes createInterface this amounts routes
           = (Ok op, []) /\
         handleCallResults op callResults =
           (Ok (quotes_resultHandler amounts routes samples), []) /\
         handleRevert op callResults = (Ok [], [])).
Proof.
  intros createInterface this amounts routes callResults slots samples
    Hall Hdec Hlen.
  split; intros fragment Hfrag Hrows; eexists;
    (split; [first [apply getSellQuotes_recognized
                   | apply getBuyQuotes_recognized]; exact Hall |]);
    (split; [| reflexivity]);
    rewrite (createBatch_handleCallResults _ _ _ _ _ _ Hdec).
  - rewrite (quote_slots_decoded createInterface amounts
               (SamplerOperation_getUniswapV2SellQuotes createInterface this)
               "sampleSellsFromUniswapV2" fragment routes slots samples);
      [reflexivity | reflexivity | exact Hfrag | exact Hlen | exact Hrows].
  - rewrite (quote_slots_decoded createInterface amounts
               (SamplerOperation_getUniswapV2BuyQuotes createInterface this)
               "sampleBuysFromUniswapV2" fragment routes slots samples);
      [reflexivity | reflexivity | exact Hfrag | exact Hlen | exact Hrows].
Qed.

Lemma encoded_by_path {E A B} (g : A -> B) (f : B -> Eff E Payload) l :
  lodash_map (fun x _ => f (g x)) l = lodash_map (fun y _ => f y) (map g l).
Proof.
  unfold lodash_map. symmetry.
  apply (lodash_map_from_map g (fun y _ => f y)).
Qed.

(** X15.  The call data of a quotes operation depend on the paths of the
    routes and on the amounts only: two lists of recognized routes with
    the same paths give operations with the same call data, whatever
    their classifications. *)
Theorem quotes_call_data_ignore_classification :
  forall (createInterface : Interface) (this : SamplerOperation)
         (amounts : list BigNumber) (routes routes' : list SamplerRoute),
    forallb (fun r => recognized (route_protocol r)) routes = true ->
    forallb (fun r => recognized (route_protocol r)) routes' = true ->
    map route_path routes = map route_path routes' ->
    (exists op op',
       SamplerOperation_getSellQuotes createInterface this amounts routes
         = (Ok op, []) /\
       SamplerOperation_getSellQuotes createInterface this amounts routes'
         = (Ok op', []) /\
       encodeCall op = encodeCall op') /\
    (exists op op',
       SamplerOperation_getBuyQuotes createInterface this amounts routes
         = (Ok op, []) /\
       SamplerOperation_getBuyQuotes createInterface this amounts routes'
         = (Ok op', []) /\
       encodeCall op = encodeCall op').
Proof.
  intros createInterface this amounts routes routes' Hall Hall' Hpaths.
  split; eexists; eexists;
    (split; [first [apply getSellQuotes_recognized
                   | apply getBuyQuotes_recognized]; exact Hall |]);
    (split; [first [apply getSellQuotes_recognized
                   | apply getBuyQuotes_recognized]; exact Hall' |]);
    unfold SamplerOperation_createBatch; cbn [encodeCall]; f_equal;
    unfold lodash_map; rewrite !lodash_map_from_map.
  - change (lodash_map
              (fun r _ => SamplerContractOperation_encodeCall
                 {| this_functionName := "sampleSellsFromUniswapV2";
                    this_functionParams :=
                      Some [AbiArray (map AbiString (route_path r));
                            AbiArray (map AbiBigNumber amounts)];
                    this_contractInterface := createInterface;
                    this_protocol := UniswapV2 |}) routes =
            lodash_map
              (fun r _ => SamplerContractOperation_encodeCall
                 {| this_functionName := "sampleSellsFromUniswapV2";
                    this_functionParams :=
                      Some [AbiArray (map AbiString (route_path r));
                            AbiArray (map AbiBigNumber amounts)];
                    this_contractInterface := createInterface;
                    this_protocol := UniswapV2 |}) routes').
    rewrite !(encoded_by_path route_path
                (fun path => SamplerContractOperation_encodeCall
                   {| this_functionName := "sampleSellsFromUniswapV2";
                      this_functionParams :=
                        Some [AbiArray (map AbiString path);
                              AbiArray (map AbiBigNumber amounts)];
                      this_contractInterface := createInterface;
                      this_protocol := UniswapV2 |})).
    rewrite Hpaths. reflexivity.
  - change (lodash_map
              (fun r _ => SamplerContractOperation_encodeCall
                 {| this_functionName := "sampleBuysFromUniswapV2";
                    this_functionParams :=
                      Some [AbiArray (map AbiString (route_path r));
                            AbiArray (map AbiBigNumber amounts)];
                    this_contractInterface := createInterface;
                    this_protocol := UniswapV2 |}) routes =
            lodash_map
              (fun r _ => SamplerContractOperation_encodeCall
                 {| this_functionName := "sampleBuysFromUniswapV2";
                    this_functionParams :=
                      Some [AbiArray (map AbiString (route_path r));
                            AbiArray (map AbiBigNumber amounts)];
                    this_contractInterface := createInterface;
                    this_protocol := UniswapV2 |}) routes').
    rewrite !(encoded_by_path route_path
                (fun path => SamplerContractOperation_encodeCall
                   {| this_functionName := "sampleBuysFromUniswapV2";
                      this_functionParams :=
                        Some [AbiArray (map AbiString path);
                              AbiArray (map AbiBigNumber amounts)];
                      this_contractInterface := createInterface;
                      this_protocol := UniswapV2 |})).
    rewrite Hpaths. reflexivity.
Qed.

(** ** The shape of the samples *)

Lemma row_outputs {A} (mk : BigNumber -> nat -> A) (out : A -> BigNumber)
    (row : list BigNumber) :
  (forall output j, out (mk output j) = output) ->
  forall start, map out (lodash_map_pure_from mk row start) = row.
Proof.
  intros Hout. induction row as [| x row IH]; intros start; [reflexivity |].
  simpl. rewrite Hout, IH. reflexivity.
Qed.

Lemma row_constant {A B} (mk : BigNumber -> nat -> A) (tag : A -> B) (b : B)
    (row : list BigNumber) :
  (forall output j, tag (mk output j) = b) ->
  forall start,
  map tag (lodash_map_pure_from mk row start) = repeat b (length row).
Proof.
  intros Htag. induction row as [| x row IH]; intros start; [reflexivity |].
  simpl. rewrite Htag, IH. reflexivity.
Qed.

Lemma row_inputs {A} (mk : BigNumber -> nat -> A)
    (inp : A -> option BigNumber) (amounts row : list BigNumber) :
  (forall output j, inp (mk output j) = nth_error amounts j) ->
  forall start,
  start + length row <= length amounts ->
  map inp (lodash_map_pure_from mk row start) =
  map Some (firstn (length row) (skipn start amounts)).
Proof.
  intros Hinp. induction row as [| x row IH]; intros start Hlen;
    [reflexivity |].
  cbn [length] in Hlen. cbn [lodash_map_pure_from map length].
  rewrite Hinp, (IH (S start)) by lia.
  destruct (nth_error amounts start) as [a |] eqn:Ha.
  - destruct (nth_error_split amounts start Ha) as [pre [post [-> <-]]].
    rewrite !skipn_app, !Nat.sub_diag, skipn_all.
    replace (S (length pre) - length pre) with 1 by lia.
    rewrite skipn_all2 by lia. reflexivity.
  - apply nth_error_None in Ha. lia.
Qed.

(** X16.  The samples of a route, taken apart: their outputs are the
    quantities decoded for the route, each carries the classification of
    the route, and, when there are at least as many amounts as
    quantities, their inputs are the first amounts, in order. *)
Theorem quotes_resultHandler_row_projections :
  forall (amounts : list BigNumber) (routes : list SamplerRoute)
         (samples : list (list BigNumber))
         (i : nat) (route : SamplerRoute) (row : list BigNumber),
    nth_error routes i = Some route ->
    nth_error samples i = Some row ->
    exists sampleRow,
      nth_error (quotes_resultHandler amounts routes samples) i =
        Some sampleRow /\
      map sample_output sampleRow = row /\
      map sample_protocol sampleRow =
        repeat (route_protocol route) (length row) /\
      (length row <= length amounts ->
       map sample_input sampleRow = map Some (firstn (length row) amounts)).
Proof.
  intros amounts routes samples i route row Hroute Hrow.
  unfold quotes_resultHandler, lodash_map_pure.
  rewrite lodash_map_pure_from_nth, Hroute. cbn [option_map Nat.add].
  rewrite Hrow. cbn [lodash_collection].
  eexists. split; [reflexivity |]. repeat split.
  - apply row_outputs. reflexivity.
  - apply row_constant. reflexivity.
  - intros Hlen.
    rewrite (row_inputs _ sample_input amounts row) by (reflexivity || lia).
    reflexivity.
Qed.

(** X17.  With one row of quantities per route, the outputs of the aggregate
    are exactly the decoded quantities. *)
Theorem quotes_resultHandler_outputs_round_trip :
  forall (amounts : list BigNumber) (routes : list SamplerRoute)
         (samples : list (list BigNumber)),
    length samples = length routes ->
    map (map sample_output) (quotes_resultHandler amounts routes samples) =
    samples.
Proof.
  intros amounts routes samples Hlen. apply nth_error_ext. intros i.
  unfold quotes_resultHandler, lodash_map_pure.
  rewrite nth_error_map, lodash_map_pure_from_nth.
  destruct (nth_error routes i) as [route |] eqn:Hroute; simpl.
  - destruct (nth_error samples i) as [row |] eqn:Hrow.
    + simpl. f_equal. apply row_outputs. reflexivity.
    + apply nth_error_None in Hrow.
      assert (i < length routes)
        by (apply nth_error_Some; rewrite Hroute; discriminate).
      lia.
  - symmetry. apply nth_error_None. apply nth_error_None in Hroute. lia.
Qed.

(** X18.  The edges of the result handler: rows of quantities beyond the
    routes are ignored; a route without a row of quantities gets an empty
    row of samples; a quantity beyond the amounts gets an undefined
    input. *)
Theorem quotes_resultHandler_edges :
  forall (amounts : list BigNumber) (routes : list SamplerRoute)
         (samples : list (list BigNumber)),
    (forall extra,
       length routes <= length samples ->
       quotes_resultHandler amounts routes (samples ++ extra) =
       quotes_resultHandler amounts routes samples) /\
    (forall i,
       i < length routes ->
       length samples <= i ->
       nth_error (quotes_resultHandler amounts routes samples) i = Some []) /\
    (forall i sampleRow j sample,
       nth_error (quotes_resultHandler amounts routes samples) i =
         Some sampleRow ->
       nth_error sampleRow j = Some sample ->
       length amounts <= j ->
       sample_input sample = None).
Proof.
  intros amounts routes samples. repeat split.
  - intros extra Hlen. apply nth_error_ext. intros i.
    unfold quotes_resultHandler, lodash_map_pure.
    rewrite !lodash_map_pure_from_nth.
    destruct (nth_error routes i) as [route |] eqn:Hroute; [| reflexivity].
    simpl. rewrite nth_error_app1; [reflexivity |].
    assert (i < length routes)
      by (apply nth_error_Some; rewrite Hroute; discriminate).
    lia.
  - intros i Hi Hshort. unfold quotes_resultHandler, lodash_map_pure.
    rewrite lodash_map_pure_from_nth.
    destruct (nth_error routes i) as [route |] eqn:Hroute.
    + simpl. rewrite (proj2 (nth_error_None samples i) Hshort). reflexivity.
    + apply nth_error_None in Hroute. lia.
  - intros i sampleRow j sample Hrow Hj Hlen.
    unfold quotes_resultHandler, lodash_map_pure in Hrow.
    rewrite lodash_map_pure_from_nth in Hrow.
    destruct (nth_error routes i) as [route |]; [| discriminate].
    simpl in Hrow. injection Hrow as <-.
    rewrite lodash_map_pure_from_nth in Hj.
    destruct (nth_error (lodash_collection (nth_error samples i)) j);
      [| discriminate].
    simpl in Hj. injection Hj as <-. simpl.
    apply nth_error_None. exact Hlen.
Qed.

(** ** What is never logged *)

Lemma sampler_operation_encodeCall_silent (o : SamplerContractOperation) :
  trace (SamplerContractOperation_encodeCall o) = [].
Proof.
  unfold SamplerContractOperation_encodeCall.
  destruct (getFunction _ _) as [fragment | e]; [| reflexivity].
  simpl. destruct (encodeFunctionData _ _ _); reflexivity.
Qed.

Lemma sampler_operation_handleCallResults_silent
    (o : SamplerContractOperation) raw :
  trace (SamplerContractOperation_handleCallResults o raw) = [].
Proof.
  unfold SamplerContractOperation_handleCallResults.
  destruct (getFunction _ _) as [fragment | e]; [| reflexivity].
  unfold pure. rewrite bind_Ok. reflexivity.
Qed.

Lemma silent_run {T} (this : Sampler) (ops : list (ContractOperation T)) :
  (forall op, In op ops -> trace (encodeCall op) = []) ->
  (forall op raw, In op ops -> trace (handleCallResults op raw) = []) ->
  warnings (trace (Sampler_executeBatchAsync this ops)) = [].
Proof.
  intros Henc Hdec.
  assert (Hlog : trace (lodash_map (fun o _ => encodeCall o) ops) = [])
    by (apply lodash_map_from_trace_nil; intros x i Hx; apply Henc, Hx).
  assert (Hwalk : forall f : ContractOperation T -> nat -> CallResult,
            trace (lodash_map (fun op i => handleCallResults op (f op i)) ops)
            = [])
    by (intros f; apply lodash_map_from_trace_nil; intros x i Hx;
        apply Hdec, Hx).
  destruct (executeBatchAsync_Run this ops)
    as [e log H | cds log H Hn | cds log e H Hs | cds log raws H Hs];
    rewrite H in Hlog; cbn [trace snd] in Hlog |- *; subst log;
    rewrite ?warnings_app, ?warnings_map_Warn.
  - reflexivity.
  - exact (Hwalk (fun _ _ => Some NULL_BYTES)).
  - reflexivity.
  - exact (Hwalk (fun _ i => slot_of cds raws i)).
Qed.

(** X19.  Executing sampler operations, or a batch of them, never logs a
    warning: the only method that logs is [handleRevert], and no run
    calls it. *)
Theorem sampler_operations_never_warn :
  forall (T : Type) (sampler : Sampler) (this : SamplerOperation)
         (operations : list SamplerContractOperation)
         (resultHandler : list (list BigNumber) -> Logged T)
         (revertHandler : CallResult -> Logged T),
    (forall results, trace (resultHandler results) = []) ->
    let ops :=
      map (fun o => operation (SamplerContractOperation_object o))
        operations in
    warnings (trace (Sampler_executeBatchAsync sampler ops)) = [] /\
    warnings (trace (Sampler_executeBatchAsync sampler
                       [SamplerOperation_createBatch this ops resultHandler
                          revertHandler])) = [].
Proof.
  intros T sampler this operations resultHandler revertHandler Hsilent ops.
  assert (Henc : forall op, In op ops -> trace (encodeCall op) = []).
  { intros op Hop. apply in_map_iff in Hop. destruct Hop as [o [<- _]].
    apply sampler_operation_encodeCall_silent. }
  assert (Hdec : forall op raw, In op ops ->
                   trace (handleCallResults op raw) = []).
  { intros op raw Hop. apply in_map_iff in Hop. destruct Hop as [o [<- _]].
    apply sampler_operation_handleCallResults_silent. }
  split; [exact (silent_run sampler ops Henc Hdec) |].
  apply silent_run.
  - intros op [<- | []].
    unfold SamplerOperation_createBatch. cbn [encodeCall].
    rewrite trace_bind. unfold lodash_map.
    rewrite lodash_map_from_trace_nil by (intros x i Hx; apply Henc, Hx).
    destruct (outcome (lodash_map_from _ ops 0)); reflexivity.
  - intros op raw [<- | []].
    unfold SamplerOperation_createBatch. cbn [handleCallResults].
    destruct (decodeFunctionResult_callResults _ _ _) as [slots | e];
      [| reflexivity].
    unfold pure. rewrite bind_Ok. cbn [trace snd app].
    rewrite trace_bind. unfold lodash_map.
    rewrite lodash_map_from_trace_nil by (intros x i Hx; apply Hdec, Hx).
    destruct (outcome (lodash_map_from _ ops 0)); [apply Hsilent | reflexivity].
Qed.

(** * Construction *)

(** X20.  Constructing a sampler returns exactly when the address table has an
    entry for the chain with a non-empty [quoter]; the sampler then uses
    the coder of the factory and the contract connected at that address.
    Without entry it throws a [TypeError]; with an entry without address
    it throws the error that names the chain.  It never calls the
    node. *)
Theorem Sampler_new_needs_an_address :
  forall (Provider : Type)
         (contractAddressesByChain : ChainId -> option ContractAddresses)
         (ChainId_toString : ChainId -> string)
         (createInterface : Interface)
         (connect : string -> Provider -> list Payload -> option N ->
                    Outcome (list Payload))
         (chain : ChainId) (provider : Provider) (blockNumber : option N),
    let built :=
      Sampler_new Provider contractAddressesByChain ChainId_toString
        createInterface connect chain provider blockNumber in
    trace built = [] /\
    match contractAddressesByChain chain with
    | None => exists message, outcome built = Throw (TypeError message)
    | Some addresses =>
        match quoter addresses with
        | Some (String c rest) =>
            outcome built =
            Ok {| super := {| chainId := chain;
                              contractInterface := createInterface |};
                  samplerContract_callStatic_batchCall :=
                    connect (String c rest) provider;
                  samplerOverrides_blockNumber := blockNumber |}
        | _ =>
            outcome built =
            Throw (Error ("No address for sampler contract on chain id: "
                          ++ ChainId_toString chain)%string)
        end
    end.
Proof.
  intros Provider table toString createInterface connect chain provider
    blockNumber built. subst built. unfold Sampler_new.
  destruct (table chain) as [[[[| c rest] |]] |]; cbn.
  - split; reflexivity.
  - split; reflexivity.
  - split; reflexivity.
  - split; [reflexivity |]. eexists. reflexivity.
Qed.

(** * [SamplerUtils.sol] *)

Lemma toSingleValueArray_single (v : SamplerUtils.uint256) :
  SamplerUtils._toSingleValueArray v = [v].
Proof. reflexivity. Qed.

(** X21.  A pair of tokens is valid exactly when the two differ, in either
    order; an invalid pair reverts with the reason of the contract. *)
Theorem assertValidPair_differs :
  forall (makerToken takerToken : SamplerUtils.address),
    (SamplerUtils._assertValidPair makerToken takerToken =
       SamplerUtils.Return tt <-> makerToken <> takerToken) /\
    (SamplerUtils._assertValidPair makerToken takerToken =
       SamplerUtils.Revert "ERC20BridgeSampler/INVALID_TOKEN_PAIR"
     <-> makerToken = takerToken) /\
    SamplerUtils._assertValidPair makerToken takerToken =
    SamplerUtils._assertValidPair takerToken makerToken.
Proof.
  intros maker taker. unfold SamplerUtils._assertValidPair.
  rewrite (N.eqb_sym taker maker).
  destruct (N.eqb_spec maker taker) as [-> | Hne]; simpl.
  - repeat split; intros; try reflexivity; try discriminate; congruence.
  - repeat split; intros; try assumption; try reflexivity; try discriminate;
      congruence.
Qed.

(** * Concrete runs of the further properties *)

Lemma executeBatchAsync_length_witness :
  outcome (Sampler_executeBatchAsync Demo.sampler
             [operation Demo.sellOp; Demo.localEmpty]) =
    Ok [[10%Z; 19%Z]; []] /\
  length [[10%Z; 19%Z]; @nil BigNumber] =
  length [operation Demo.sellOp; Demo.localEmpty].
Proof.
  split; [reflexivity |].
  exact (executeBatchAsync_length _ Demo.sampler
           [operation Demo.sellOp; Demo.localEmpty] [[10%Z; 19%Z]; []]
           eq_refl).
Defined.

Lemma executeBatchAsync_never_sends_sentinel_witness :
  In (RemoteBatchCall [Demo.sellCall] None)
     (trace (Sampler_executeBatchAsync Demo.sampler
               [Demo.localEmpty; operation Demo.sellOp])) /\
  Forall (fun cd => cd <> NULL_BYTES) [Demo.sellCall].
Proof.
  assert (Hin : In (RemoteBatchCall [Demo.sellCall] None)
                  (trace (Sampler_executeBatchAsync Demo.sampler
                            [Demo.localEmpty; operation Demo.sellOp])))
    by (left; reflexivity).
  split; [exact Hin |].
  exact (proj1 (proj2 (executeBatchAsync_never_sends_sentinel _ Demo.sampler
                         [Demo.localEmpty; operation Demo.sellOp]
                         [Demo.sellCall] None Hin))).
Defined.

Lemma executeBatchAsync_encode_failure_witness :
  outcome (encodeCall Cases.unknownOp) =
    Throw (Error "no matching function") /\
  outcome (Sampler_executeBatchAsync Demo.sampler
             [operation Demo.sellOp; operation Cases.unknownOp;
              operation Demo.sellOp]) =
    Throw (Error "no matching function") /\
  remote_calls (trace (Sampler_executeBatchAsync Demo.sampler
             [operation Demo.sellOp; operation Cases.unknownOp;
              operation Demo.sellOp])) = 0.
Proof.
  split; [reflexivity |].
  assert (Hbefore : forall i op', i < 1 ->
            nth_error [operation Demo.sellOp; operation Cases.unknownOp;
                       operation Demo.sellOp] i = Some op' ->
            exists callData, outcome (encodeCall op') = Ok callData).
  { intros [| i] op' Hi Hop; [| lia]. injection Hop as <-.
    eexists. reflexivity. }
  destruct (executeBatchAsync_encode_failure _ Demo.sampler
              [operation Demo.sellOp; operation Cases.unknownOp;
               operation Demo.sellOp] 1 (operation Cases.unknownOp)
              (Error "no matching function") eq_refl eq_refl Hbefore)
    as [Hout [Hzero _]].
  split; [exact Hout | exact Hzero].
Defined.

Lemma executeBatchAsync_remote_failure_witness :
  existsb is_call [Demo.sellCall] = true /\
  outcome (Sampler_executeBatchAsync Cases.offlineSampler
             [operation Demo.sellOp]) =
    Throw (Error "could not detect network") /\
  remote_calls (trace (Sampler_executeBatchAsync Cases.offlineSampler
                         [operation Demo.sellOp])) = 1.
Proof.
  split; [reflexivity |].
  destruct (executeBatchAsync_remote_failure _ Cases.offlineSampler
              [operation Demo.sellOp] [Demo.sellCall] []
              (Error "could not detect network") eq_refl eq_refl eq_refl)
    as [Hout [Hone _]].
  split; [exact Hout | exact Hone].
Defined.

Lemma executeBatchAsync_decode_failure_witness :
  outcome (handleCallResults Demo.buyOp
             (Some "!INSUFFICIENT_LIQUIDITY")) =
    Throw (Error "call revert exception") /\
  outcome (Sampler_executeBatchAsync Demo.sampler
             [operation Demo.sellOp; operation Demo.buyOp]) =
    Throw (Error "call revert exception").
Proof.
  split; [reflexivity |].
  assert (Hbefore : forall i op', i < 1 ->
            nth_error [operation Demo.sellOp; operation Demo.buyOp] i
              = Some op' ->
            exists r,
              outcome (handleCallResults op'
                (slot_of
                   [Demo.sellCall;
                    "sampleBuysFromUniswapV2([0xC02a,0x6B17,],[0x64,0xc8,],)"]
                   ["=0xa,0x13,"; "!INSUFFICIENT_LIQUIDITY"] i)) = Ok r).
  { intros [| i] op' Hi Hop; [| lia]. injection Hop as <-.
    eexists. reflexivity. }
  exact (proj1 (executeBatchAsync_decode_failure _ Demo.sampler
    [operation Demo.sellOp; operation Demo.buyOp]
    [Demo.sellCall;
     "sampleBuysFromUniswapV2([0xC02a,0x6B17,],[0x64,0xc8,],)"] []
    ["=0xa,0x13,"; "!INSUFFICIENT_LIQUIDITY"] 1 (operation Demo.buyOp)
    (Error "call revert exception") eq_refl eq_refl eq_refl eq_refl eq_refl
    Hbefore)).
Defined.

Lemma executeBatchAsync_ignores_surplus_results_witness :
  length (filter is_call [Demo.sellCall; NULL_BYTES]) <= length ["=0xa,0x13,"]
  /\
  Sampler_executeBatchAsync Cases.chattySampler
    [operation Demo.sellOp; Demo.localEmpty] =
  Sampler_executeBatchAsync Demo.sampler
    [operation Demo.sellOp; Demo.localEmpty].
Proof.
  assert (Hlen : length (filter is_call [Demo.sellCall; NULL_BYTES])
                 <= length ["=0xa,0x13,"]) by (simpl; lia).
  split; [exact Hlen |].
  exact (executeBatchAsync_ignores_surplus_results _ Demo.sampler
           Cases.chattySampler [operation Demo.sellOp; Demo.localEmpty]
           [Demo.sellCall; NULL_BYTES] [] ["=0xa,0x13,"] ["=0x1,"]
           eq_refl eq_refl eq_refl eq_refl eq_refl Hlen).
Defined.

Lemma executeBatchAsync_short_result_witness :
  outcome (Sampler_executeBatchAsync Cases.muteSampler [Cases.pingOp]) =
    Ok [None] /\
  exists r,
    nth_error [@None Payload] 0 = Some r /\
    outcome (handleCallResults Cases.pingOp None) = Ok r.
Proof.
  split; [reflexivity |].
  assert (Hshort : length (@nil Payload)
                   <= length (filter is_call (firstn 0 ["0x01"])))
    by (simpl; lia).
  exact (executeBatchAsync_short_result_decodes_undefined _ Cases.muteSampler
           [Cases.pingOp] ["0x01"] [] [] [None] 0 Cases.pingOp "0x01"
           eq_refl eq_refl eq_refl eq_refl eq_refl eq_refl eq_refl Hshort).
Defined.

Lemma executeBatchAsync_local_operation_witness :
  encodeCall Demo.localEmpty = (Ok NULL_BYTES, []) /\
  Sampler_executeBatchAsync Demo.sampler
    ([operation Demo.sellOp] ++ Demo.localEmpty :: [operation Demo.sellOp]) =
  (Outcome_map (insert_at 1 [])
     (outcome (Sampler_executeBatchAsync Demo.sampler
                 ([operation Demo.sellOp] ++ [operation Demo.sellOp]))),
   trace (Sampler_executeBatchAsync Demo.sampler
            ([operation Demo.sellOp] ++ [operation Demo.sellOp]))).
Proof.
  split; [reflexivity |].
  exact (executeBatchAsync_local_operation_is_transparent _ Demo.sampler
           [operation Demo.sellOp] [operation Demo.sellOp] Demo.localEmpty []
           eq_refl eq_refl).
Defined.

Lemma createBatch_encode_failure_witness :
  outcome (encodeCall Cases.unknownOp) =
    Throw (Error "no matching function") /\
  remote_calls (trace (Sampler_executeBatchAsync Demo.sampler
    [SamplerOperation_createBatch Demo.samplerOperation
       [operation Demo.sellOp; operation Cases.unknownOp]
       (fun results => ret results) (fun _ => ret [])])) = 0.
Proof.
  split; [reflexivity |].
  assert (Hbefore : forall i op', i < 1 ->
            nth_error [operation Demo.sellOp; operation Cases.unknownOp] i
              = Some op' ->
            exists callData, outcome (encodeCall op') = Ok callData).
  { intros [| i] op' Hi Hop; [| lia]. injection Hop as <-.
    eexists. reflexivity. }
  exact (proj2 (proj2 (createBatch_encode_failure _ _ Demo.samplerOperation
    Demo.sampler [operation Demo.sellOp; operation Cases.unknownOp]
    (fun results => ret results) (fun _ => ret []) 1
    (operation Cases.unknownOp) (Error "no matching function")
    eq_refl eq_refl Hbefore))).
Defined.

Lemma createBatch_unwrap_failure_witness :
  decodeFunctionResult_callResults Demo.abi "batchCall" (Some NULL_BYTES) =
    Throw (Error "call revert exception") /\
  handleCallResults Demo.quotesBatch (Some NULL_BYTES) =
    (Throw (Error "call revert exception"), []).
Proof.
  split; [reflexivity |].
  exact (createBatch_unwrap_failure _ _ Demo.samplerOperation Demo.quoteOps
    (fun samples =>
       ret (quotes_resultHandler Demo.amounts Demo.routes samples))
    (fun _ => ret []) (Some NULL_BYTES) (Error "call revert exception")
    eq_refl).
Defined.

Lemma createBatch_ignores_surplus_slots_witness :
  length Demo.quoteOps <= length ["=0xa,0x13,"; "=0xb,0x14,"] /\
  handleCallResults Demo.quotesBatch (Some "#=0xa,0x13,;=0xb,0x14,;=0x1,;") =
  handleCallResults Demo.quotesBatch (Some "#=0xa,0x13,;=0xb,0x14,;").
Proof.
  assert (Hlen : length Demo.quoteOps <= length ["=0xa,0x13,"; "=0xb,0x14,"])
    by (simpl; lia).
  split; [exact Hlen |].
  exact (createBatch_ignores_surplus_slots _ _ Demo.samplerOperation
    Demo.quoteOps
    (fun samples =>
       ret (quotes_resultHandler Demo.amounts Demo.routes samples))
    (fun _ => ret []) (Some "#=0xa,0x13,;=0xb,0x14,;")
    (Some "#=0xa,0x13,;=0xb,0x14,;=0x1,;")
    ["=0xa,0x13,"; "=0xb,0x14,"] ["=0x1,"] eq_refl eq_refl Hlen).
Defined.

Lemma quotes_operation_decodes_batch_result_witness :
  forallb (fun r => recognized (route_protocol r)) Demo.routes = true /\
  exists op,
    SamplerOperation_getSellQuotes Demo.abi Demo.samplerOperation
      Demo.amounts Demo.routes = (Ok op, []) /\
    handleCallResults op (Some "#=0xa,0x13,;=0xb,0x14,;") =
      (Ok (quotes_resultHandler Demo.amounts Demo.routes
             [[10%Z; 19%Z]; [11%Z; 20%Z]]), []) /\
    handleRevert op (Some "#=0xa,0x13,;=0xb,0x14,;") = (Ok [], []).
Proof.
  split; [reflexivity |].
  assert (Hrows : forall i row,
            nth_error [[10%Z; 19%Z]; [11%Z; 20%Z]] i = Some row ->
            decodeFunctionResult_0 Demo.abi "sampleSellsFromUniswapV2"
              (nth_error ["=0xa,0x13,"; "=0xb,0x14,"] i) = Ok row).
  { intros [| [| i]] row Hrow; simpl in Hrow.
    - injection Hrow as <-. reflexivity.
    - injection Hrow as <-. reflexivity.
    - destruct i; discriminate. }
  exact (proj1 (quotes_operation_decodes_batch_result Demo.abi
    Demo.samplerOperation Demo.amounts Demo.routes
    (Some "#=0xa,0x13,;=0xb,0x14,;") ["=0xa,0x13,"; "=0xb,0x14,"]
    [[10%Z; 19%Z]; [11%Z; 20%Z]] eq_refl eq_refl eq_refl)
    "sampleSellsFromUniswapV2" eq_refl Hrows).
Defined.

Lemma quotes_call_data_ignore_classification_witness :
  map route_path Demo.routes = map route_path Cases.swappedRoutes /\
  exists op op',
    SamplerOperation_getSellQuotes Demo.abi Demo.samplerOperation
      Demo.amounts Demo.routes = (Ok op, []) /\
    SamplerOperation_getSellQuotes Demo.abi Demo.samplerOperation
      Demo.amounts Cases.swappedRoutes = (Ok op', []) /\
    encodeCall op = encodeCall op'.
Proof.
  split; [reflexivity |].
  exact (proj1 (quotes_call_data_ignore_classification Demo.abi
    Demo.samplerOperation Demo.amounts Demo.routes Cases.swappedRoutes
    eq_refl eq_refl eq_refl)).
Defined.

Lemma quotes_resultHandler_row_projections_witness :
  nth_error [[10%Z; 19%Z]; [11%Z; 20%Z]] 1 = Some [11%Z; 20%Z] /\
  exists sampleRow,
    nth_error (quotes_resultHandler Demo.amounts Demo.routes
                 [[10%Z; 19%Z]; [11%Z; 20%Z]]) 1 = Some sampleRow /\
    map sample_output sampleRow = [11%Z; 20%Z] /\
    map sample_protocol sampleRow = [SushiSwap; SushiSwap] /\
    map sample_input sampleRow = [Some 100%Z; Some 200%Z].
Proof.
  split; [reflexivity |].
  destruct (quotes_resultHandler_row_projections Demo.amounts Demo.routes
              [[10%Z; 19%Z]; [11%Z; 20%Z]] 1 _ [11%Z; 20%Z] eq_refl eq_refl)
    as [sampleRow [Hrow [Hout [Htag Hin]]]].
  exists sampleRow. repeat split; [exact Hrow | exact Hout | exact Htag |].
  exact (Hin ltac:(simpl; lia)).
Defined.

Lemma quotes_resultHandler_outputs_round_trip_witness :
  length [[10%Z; 19%Z]; [11%Z; 20%Z]] = length Demo.routes /\
  map (map sample_output)
    (quotes_resultHandler Demo.amounts Demo.routes
       [[10%Z; 19%Z]; [11%Z; 20%Z]]) = [[10%Z; 19%Z]; [11%Z; 20%Z]].
Proof.
  split; [reflexivity |].
  exact (quotes_resultHandler_outputs_round_trip Demo.amounts Demo.routes
           [[10%Z; 19%Z]; [11%Z; 20%Z]] eq_refl).
Defined.

Lemma quotes_resultHandler_edges_witness :
  1 < length Demo.routes /\
  nth_error (quotes_resultHandler Demo.amounts Demo.routes [[10%Z; 19%Z]]) 1
  = Some [].
Proof.
  assert (H1 : 1 < length Demo.routes) by (simpl; lia).
  split; [exact H1 |].
  exact (proj1 (proj2 (quotes_resultHandler_edges Demo.amounts Demo.routes
                         [[10%Z; 19%Z]])) 1 H1 ltac:(simpl; lia)).
Defined.

Lemma sampler_operations_never_warn_witness :
  (forall results : list (list BigNumber),
     trace (@ret string _ results) = []) /\
  warnings (trace (Sampler_executeBatchAsync Demo.sampler
    (map (fun o => operation (SamplerContractOperation_object o))
       [ {| this_functionName := "sampleBuysFromUniswapV2";
            this_functionParams := Some [];
            this_contractInterface := Demo.abi;
            this_protocol := SushiSwap |} ]))) = [].
Proof.
  assert (Hsilent : forall results : list (list BigNumber),
            trace (@ret string _ results) = []) by reflexivity.
  split; [exact Hsilent |].
  exact (proj1 (sampler_operations_never_warn _ Demo.sampler
    Demo.samplerOperation
    [ {| this_functionName := "sampleBuysFromUniswapV2";
         this_functionParams := Some [];
         this_contractInterface := Demo.abi;
         this_protocol := SushiSwap |} ]
    (fun results => ret results) (fun _ => ret []) Hsilent)).
Defined.

Lemma assertValidPair_differs_witness :
  (1 <> 2)%N /\
  SamplerUtils._assertValidPair 1%N 2%N = SamplerUtils.Return tt.
Proof.
  assert (Hne : (1 <> 2)%N) by discriminate.
  split; [exact Hne |].
  exact (proj2 (proj1 (assertValidPair_differs 1%N 2%N)) Hne).
Defined.

(** The constructor on the three kinds of chain of [Cases.addresses]. *)
Example Sampler_new_cases :
  let build := Sampler_new unit Cases.addresses HexString.of_N Demo.abi
                 (fun _ _ => Demo.node) in
  outcome (build 5%N tt None) =
    Throw (Error "No address for sampler contract on chain id: 0x5") /\
  outcome (build 137%N tt None) =
    Throw (TypeError "Cannot read properties of undefined") /\
  outcome (x <- build 1%N tt (Some 17000000%N) ;;
           Sampler_executeAsync x [operation Demo.sellOp]) =
    Ok [[10%Z; 19%Z]].
Proof. repeat split. Qed.

(** * The operations of the quote methods *)







(** * The failure decoder under a coder that checks the name *)

(** C7.  [handleRevert] sets out to log the revert and return the empty
    sequence, but first hands the name of its function to
    [decodeErrorResult].  A coder that looks that name up among the
    errors of the contract finds none: on every payload, [handleRevert]
    of every operation the two factory methods build throws, returns no
    empty sequence and logs nothing. *)
Theorem handleRevert_throws_under_a_checking_coder :
  forall (this : SamplerOperation) (tokenAddressPath : list string)
         (fillAmounts : list BigNumber) (protocol_arg : option Protocol)
         (callResults : CallResult),
    handleRevert
      (SamplerOperation_getUniswapV2SellQuotes Strict.abi this
         tokenAddressPath fillAmounts protocol_arg) callResults =
      (Throw (Error "no matching error"), []) /\
    handleRevert
      (SamplerOperation_getUniswapV2BuyQuotes Strict.abi this
         tokenAddressPath fillAmounts protocol_arg) callResults =
      (Throw (Error "no matching error"), []).
Proof. intros. split; reflexivity. Qed.

(** * Composition under a coder that checks its bytes *)

(** C8 fails on the code.  Executed directly, an operation whose payload
    is the sentinel is resolved locally and the run returns.  Composed
    into a batch, its sentinel is handed to the coder as a sub-call: the
    coder refuses the odd-length hex data and the run throws. *)
Lemma compose_throws_on_a_sentinel_sub_operation :
  outcome (encodeCall Demo.localEcho) = Ok NULL_BYTES /\
  outcome (Sampler_executeBatchAsync Strict.sampler [Strict.echoBatch]) =
    Throw (Error "hex data is odd-length") /\
  outcome (results <- Sampler_executeBatchAsync Strict.sampler
                        [Demo.localEcho] ;;
           combined <- lift Warn (ret results) ;;
           ret [combined]) =
    Ok [[Some NULL_BYTES]] /\
  outcome (Sampler_executeBatchAsync Strict.sampler [Strict.echoBatch]) <>
  outcome (results <- Sampler_executeBatchAsync Strict.sampler
                        [Demo.localEcho] ;;
           combined <- lift Warn (ret results) ;;
           ret [combined]).
Proof. repeat split. discriminate. Qed.

(** * Encoding on a heap *)

Lemma dereferenced_agree (h h' : Heap) (this : SamplerContractOperationByRef) :
  (forall r, In r (held this) -> nth_error h' r = nth_error h r) ->
  dereferenced h' this = dereferenced h this.
Proof.
  intros Hagree. unfold dereferenced. f_equal.
  unfold held in Hagree.
  destruct (byref_functionParams this) as [refs |]; [| reflexivity].
  simpl. f_equal. apply map_ext_in. intros r Hr.
  unfold array_read. rewrite (Hagree r Hr). reflexivity.
Qed.

Lemma heap_read_all_run (refs : list Ref) (h : Heap) :
  heap_read_all refs h = (ret (map (array_read h) refs), h).
Proof.
  induction refs as [| r refs IH]; [reflexivity |].
  simpl. unfold heap_bind, heap_read. simpl. rewrite IH. reflexivity.
Qed.

(** On a heap, [encodeCall] is [encodeCall] of the operation as the heap
    makes it, and it leaves the heap as it found it. *)
Lemma encodeCall_byref_run (this : SamplerContractOperationByRef) (h : Heap) :
  SamplerContractOperation_encodeCall_byref this h =
  (SamplerContractOperation_encodeCall (dereferenced h this), h).
Proof.
  unfold SamplerContractOperation_encodeCall_byref,
    SamplerContractOperation_encodeCall, dereferenced, heap_bind, heap_lift.
  cbn [this_contractInterface this_functionName this_functionParams].
  destruct (getFunction _ _) as [fragment | e]; [| reflexivity].
  cbn. destruct (byref_functionParams this) as [refs |]; cbn.
  - unfold heap_bind. rewrite heap_read_all_run. cbn.
    destruct (encodeFunctionData _ _ _); reflexivity.
  - destruct (encodeFunctionData _ _ _); reflexivity.
Qed.

(** The operation on references is the operation of the factory method on
    what the two arrays hold. *)
Lemma getUniswapV2SellQuotes_dereferenced createInterface this
    (h : Heap) pathRef amountsRef protocol_arg path fillAmounts :
  nth_error h pathRef = Some (map AbiString path) ->
  nth_error h amountsRef = Some (map AbiBigNumber fillAmounts) ->
  SamplerContractOperation_object
    (dereferenced h
       (SamplerOperation_getUniswapV2SellQuotes_byref createInterface
          pathRef amountsRef protocol_arg)) =
  SamplerOperation_getUniswapV2SellQuotes createInterface this path
    fillAmounts protocol_arg.
Proof.
  intros Hpath Hamounts.
  unfold dereferenced, SamplerOperation_getUniswapV2SellQuotes_byref,
    SamplerOperation_getUniswapV2SellQuotes, SamplerContractOperation_new,
    array_read.
  simpl. rewrite Hpath, Hamounts. reflexivity.
Qed.

(** C9.  [encodeCall] writes to no array and logs nothing, so a second
    call, on the heap the first one leaves, returns the same payload.
    The payload depends on the heap only through the arrays the operation
    was constructed with: on two heaps that agree on these arrays the
    payloads are the same, whatever else differs.  Two operations
    constructed from the same function name, references and coder encode
    alike. *)
Theorem encodeCall_twice_same_payload :
  forall (this : SamplerContractOperationByRef) (h : Heap),
    let first := SamplerContractOperation_encodeCall_byref this h in
    let second := SamplerContractOperation_encodeCall_byref this (snd first) in
    snd first = h /\
    snd second = h /\
    fst second = fst first /\
    trace (fst first) = [] /\
    (forall h',
       (forall r, In r (held this) -> nth_error h' r = nth_error h r) ->
       fst (SamplerContractOperation_encodeCall_byref this h') = fst first) /\
    (forall other,
       byref_functionName other = byref_functionName this ->
       byref_functionParams other = byref_functionParams this ->
       byref_contractInterface other = byref_contractInterface this ->
       fst (SamplerContractOperation_encodeCall_byref other h) = fst first).
Proof.
  intros this h first second. subst first second.
  rewrite !encodeCall_byref_run. cbn [fst snd].
  rewrite ?encodeCall_byref_run. cbn [fst snd].
  repeat split.
  - apply sampler_operation_encodeCall_silent.
  - intros h' Hagree.
    rewrite encodeCall_byref_run, (dereferenced_agree h h' this Hagree).
    reflexivity.
  - intros other Hname Hparams Hcoder. rewrite encodeCall_byref_run.
    unfold SamplerContractOperation_encodeCall, dereferenced. cbn.
    rewrite Hname, Hparams, Hcoder. reflexivity.
Qed.

Lemma encodeCall_twice_witness :
  (forall r, In r [0; 1] ->
     nth_error (Strict.heap ++ [[AbiString "0xdead"]]) r =
     nth_error Strict.heap r) /\
  fst (SamplerContractOperation_encodeCall_byref
         (SamplerOperation_getUniswapV2SellQuotes_byref Demo.abi 0 1 None)
         (Strict.heap ++ [[AbiString "0xdead"]])) =
  (Ok Demo.sellCall, []).
Proof.
  assert (Hagree : forall r, In r [0; 1] ->
            nth_error (Strict.heap ++ [[AbiString "0xdead"]]) r =
            nth_error Strict.heap r).
  { intros r [<- | [<- | []]]; reflexivity. }
  split; [exact Hagree |].
  exact (proj1 (proj2 (proj2 (proj2 (proj2
    (encodeCall_twice_same_payload
       (SamplerOperation_getUniswapV2SellQuotes_byref Demo.abi 0 1 None)
       Strict.heap)))))
    (Strict.heap ++ [[AbiString "0xdead"]]) Hagree).
Defined.

(** What the references cost: when the caller changes the amounts array
    after the operation was constructed, the operation encodes the new
    amounts. *)
Example encodeCall_follows_the_callers_array :
  fst (SamplerContractOperation_encodeCall_byref
         (SamplerOperation_getUniswapV2SellQuotes_byref Demo.abi 0 1 None)
         (array_write Strict.heap 1 [AbiBigNumber 1%Z])) =
  (Ok "sampleSellsFromUniswapV2([0xC02a,0x6B17,],[0x1,],)", []).
Proof. reflexivity. Qed.

(** * What a batch sends *)

(** X11.  Executing a batch sends one payload, the coder's [batchCall]
    encoding of all the sub-payloads in the order of the sub-operations
    (a sentinel among them included), unless that encoding is itself the
    sentinel: then the batch is resolved locally and nothing is sent. *)
Theorem createBatch_sends_the_wrapped_payload_or_nothing :
  forall (T TResult : Type) (sampler : Sampler)
         (subOps : list (ContractOperation TResult))
         (resultHandler : list TResult -> Logged T)
         (revertHandler : CallResult -> Logged T)
         (subCalls : list Payload) (log : list string) (outer : Payload),
    lodash_map (fun o _ => encodeCall o) subOps = (Ok subCalls, log) ->
    encodeFunctionData (contractInterface (super sampler)) "batchCall"
      (Some [AbiArray (map AbiString subCalls)]) = Ok outer ->
    let batch :=
      SamplerOperation_createBatch (super sampler) subOps resultHandler
        revertHandler in
    (is_call outer = true ->
     exists decodeLog,
       trace (Sampler_executeBatchAsync sampler [batch]) =
       map Warn log
       ++ RemoteBatchCall [outer] (samplerOverrides_blockNumber sampler)
          :: map Warn decodeLog) /\
    (is_call outer = false ->
     remote_calls (trace (Sampler_executeBatchAsync sampler [batch])) = 0).
Proof.
  intros T TResult sampler subOps resultHandler revertHandler subCalls log
    outer Henc Houter batch.
  assert (Hbatch :
    lodash_map (fun o _ => encodeCall o) [batch] = (Ok [outer], log)).
  { rewrite lodash_map_singleton. subst batch.
    rewrite (createBatch_encodeCall _ _ _ _ _ _ Henc), Houter.
    cbn. rewrite app_nil_r. reflexivity. }
  split; intros Hcall.
  - assert (Hsome : existsb is_call [outer] = true)
      by (simpl; rewrite Hcall; reflexivity).
    assert (Hfilter : filter is_call [outer] = [outer])
      by (simpl; rewrite Hcall; reflexivity).
    destruct (samplerContract_callStatic_batchCall sampler
                (filter is_call [outer])
                (samplerOverrides_blockNumber sampler))
      as [raws | e] eqn:Hremote.
    + rewrite (executeBatchAsync_remote_run sampler [batch] _ _ _
                 Hbatch Hsome Hremote).
      rewrite Hfilter. eexists. reflexivity.
    + rewrite (executeBatchAsync_remote_throw sampler [batch] _ _ _
                 Hbatch Hsome Hremote).
      rewrite Hfilter. exists []. reflexivity.
  - assert (Hnone : existsb is_call [outer] = false)
      by (simpl; rewrite Hcall; reflexivity).
    rewrite (executeBatchAsync_local_run sampler [batch] _ _ Hbatch Hnone).
    cbn [trace snd].
    rewrite remote_calls_app, !remote_calls_map_Warn. reflexivity.
Qed.

Lemma createBatch_sends_the_wrapped_payload_witness :
  is_call Cases.quotesCall = true /\
  exists decodeLog,
    trace (Sampler_executeBatchAsync Demo.sampler [Demo.quotesBatch]) =
    map Warn []
    ++ RemoteBatchCall [Cases.quotesCall] None :: map Warn decodeLog.
Proof.
  split; [reflexivity |].
  exact (proj1 (createBatch_sends_the_wrapped_payload_or_nothing _ _
    Demo.sampler Demo.quoteOps
    (fun samples =>
       ret (quotes_resultHandler Demo.amounts Demo.routes samples))
    (fun _ => ret []) [Demo.sellCall; Demo.sellCall] [] Cases.quotesCall
    eq_refl eq_refl) eq_refl).
Defined.
